(** * EduVision scholarships pipeline: field extraction and deadline cleaning

    A shallow embedding of [pipeline.py]: the text helpers, the regular
    expressions the script searches with, the parsed-page tree the
    extraction walks, [extract_fields], [extract_date] and the
    Bachelor filter of [main], followed by the properties proved about
    them. *)

From Stdlib Require Import Ascii ZArith Lia Sorted DecimalString.
From stdpp Require Import base option list strings gmap sorting.

Set Warnings "-register-all".

(** ** Python strings

    A [str] is modelled as the list of its characters, a character being a
    code point below 256 (the Latin-1 range, which holds ASCII and the
    no-break space the script replaces). *)

Definition pystr := list ascii.

(** A string literal of the source. *)
Definition py (s : string) : pystr := String.list_ascii_of_string s.

Definition code (c : ascii) : N := N_of_ascii c.

Definition in_range (lo hi : N) (c : ascii) : bool :=
  ((lo <=? code c) && (code c <=? hi))%N.

(** [str.isspace] on one character, which is also the class [\s]. *)
Definition isspace (c : ascii) : bool :=
  in_range 9 13 c || in_range 28 32 c || (code c =? 133)%N || (code c =? 160)%N.

(** The class [\d]. *)
Definition isdigit (c : ascii) : bool := in_range 48 57 c.

(** The class [\w]: letters, digits and the underscore. *)
Definition isword (c : ascii) : bool :=
  isdigit c || in_range 65 90 c || in_range 97 122 c || (code c =? 95)%N
  || (code c =? 170)%N || in_range 178 179 c || (code c =? 181)%N
  || in_range 185 186 c || in_range 188 190 c
  || in_range 192 214 c || in_range 216 246 c || in_range 248 255 c.

(** [str.lower] on one character. *)
Definition lower_char (c : ascii) : ascii :=
  if in_range 65 90 c || in_range 192 214 c || in_range 216 222 c
  then ascii_of_N (code c + 32) else c.

Definition lower (s : pystr) : pystr := lower_char <$> s.

Fixpoint lstrip (s : pystr) : pystr :=
  match s with
  | c :: s' => if isspace c then lstrip s' else s
  | [] => []
  end.

Definition rstrip (s : pystr) : pystr := reverse (lstrip (reverse s)).

(** [str.strip()] *)
Definition strip (s : pystr) : pystr := rstrip (lstrip s).

(** [sep.join(parts)] *)
Fixpoint join (sep : pystr) (parts : list pystr) : pystr :=
  match parts with
  | [] => []
  | [p] => p
  | p :: rest => p ++ sep ++ join sep rest
  end.

Fixpoint startswith (prefix s : pystr) : bool :=
  match prefix, s with
  | [], _ => true
  | p :: prefix', c :: s' => bool_decide (p = c) && startswith prefix' s'
  | _ :: _, [] => false
  end.

(** [needle in s] *)
Fixpoint contains (needle s : pystr) : bool :=
  startswith needle s ||
  match s with
  | [] => false
  | _ :: s' => contains needle s'
  end.

(** [s.replace(old, new)] for one-character [old] and [new]. *)
Definition replace_char (old new : ascii) (s : pystr) : pystr :=
  (fun c => if bool_decide (c = old) then new else c) <$> s.

Definition nbsp : ascii := ascii_of_N 160.

(** ** Regular expressions

    The patterns of the script, as syntax trees, and the backtracking
    matcher of [re]: alternatives are tried left to right, repetitions
    are greedy and give characters back one at a time, and a search
    tries every start position from the left. *)

Inductive regex :=
| Eps
| Chr (p : ascii → bool)
| Rep (p : ascii → bool) (lo : nat) (hi : option nat)
| Cat (a b : regex)
| Alt (a b : regex)
| Group (n : nat) (a : regex)
| WordBoundary
| LookBehind (p : ascii → bool)
| StartOfString
| EndOfString.

(** Spans [(start, end)] of the capturing groups that took part in a match. *)
Definition captures := list (nat * (nat * nat)).

Section Matcher.
Context {A : Type}.

(** The continuation gets the consumed text (reversed), the text left, and
    the groups. *)
Definition cont := pystr → pystr → captures → option A.

Definition or_else (x y : option A) : option A :=
  match x with Some _ => x | None => y end.

(** Greedy [p{lo,hi}]: take one more character when allowed, and on failure
    of what follows stop here, provided [lo] characters were taken. *)
Fixpoint rep (p : ascii → bool) (lo : nat) (hi : option nat)
    (pre suf : pystr) (caps : captures) (k : cont) : option A :=
  let stop := match lo with O => k pre suf caps | S _ => None end in
  match hi with
  | Some O => stop
  | _ =>
    match suf with
    | c :: suf' =>
        if p c
        then or_else (rep p (pred lo) (pred <$> hi) (c :: pre) suf' caps k) stop
        else stop
    | [] => stop
    end
  end.

Definition at_word_boundary (pre suf : pystr) : bool :=
  xorb (from_option isword false (head pre)) (from_option isword false (head suf)).

Fixpoint rmatch (r : regex) (pre suf : pystr) (caps : captures) (k : cont)
    : option A :=
  match r with
  | Eps => k pre suf caps
  | Chr p =>
      match suf with
      | c :: suf' => if p c then k (c :: pre) suf' caps else None
      | [] => None
      end
  | Rep p lo hi => rep p lo hi pre suf caps k
  | Cat a b => rmatch a pre suf caps (λ pre' suf' caps', rmatch b pre' suf' caps' k)
  | Alt a b => or_else (rmatch a pre suf caps k) (rmatch b pre suf caps k)
  | Group n a =>
      rmatch a pre suf caps
        (λ pre' suf' caps', k pre' suf' ((n, (length pre, length pre')) :: caps'))
  | WordBoundary => if at_word_boundary pre suf then k pre suf caps else None
  | LookBehind p =>
      match pre with
      | c :: _ => if p c then k pre suf caps else None
      | [] => None
      end
  | StartOfString =>
      match pre with
      | [] => k pre suf caps
      | _ :: _ => None
      end
  | EndOfString =>
      match suf with
      | [] => k pre suf caps
      | [c] => if bool_decide (c = "010"%char) then k pre suf caps else None
      | _ => None
      end
  end.
End Matcher.

(** A match object: the searched string, the span of the whole match and the
    spans of the groups. *)
Record Match := {
  m_string : pystr;
  m_start : nat;
  m_end : nat;
  m_groups : captures;
}.

Definition slice (s : pystr) (i j : nat) : pystr := take (j - i) (drop i s).

Fixpoint group_span (n : nat) (caps : captures) : option (nat * nat) :=
  match caps with
  | [] => None
  | (g, sp) :: rest => if bool_decide (g = n) then Some sp else group_span n rest
  end.

(** [m.group(n)]; group 0 is the whole match. Every group the script reads
    takes part in every match of its pattern; for a group that took no part
    (Python's [None]) the model gives the empty text. *)
Definition group (m : Match) (n : nat) : pystr :=
  match n with
  | O => slice (m_string m) (m_start m) (m_end m)
  | _ =>
      match group_span n (m_groups m) with
      | Some sp => slice (m_string m) sp.1 sp.2
      | None => []
      end
  end.

(** The match starting exactly at the position after [pre], if any. *)
Definition match_here (r : regex) (s : pystr) (pre suf : pystr) : option Match :=
  rmatch r pre suf []
    (λ pre' _ caps, Some {| m_string := s; m_start := length pre;
                            m_end := length pre'; m_groups := caps |}).

(** Leftmost match at or after the position after [pre]. *)
Fixpoint search_from (r : regex) (s : pystr) (pre suf : pystr) : option Match :=
  match match_here r s pre suf with
  | Some m => Some m
  | None =>
      match suf with
      | c :: suf' => search_from r s (c :: pre) suf'
      | [] => None
      end
  end.

(** [re.search(r, s)] *)
Definition re_search (r : regex) (s : pystr) : option Match :=
  search_from r s [] s.

(** [re.split(r, s)] for a pattern without groups that cannot match the empty
    string: every match removes at least one character, so [length s] rounds
    reach the end of [s]. *)
Fixpoint split_from (fuel : nat) (r : regex) (s : pystr) (pos : nat) : list pystr :=
  match fuel with
  | O => [drop pos s]
  | S fuel' =>
      match search_from r s (reverse (take pos s)) (drop pos s) with
      | None => [drop pos s]
      | Some m => slice s pos (m_start m) :: split_from fuel' r s (m_end m)
      end
  end.

Definition re_split (r : regex) (s : pystr) : list pystr :=
  split_from (length s) r s 0.

(** *** Pattern syntax *)

Definition is_char (c : ascii) : ascii → bool := λ x, bool_decide (x = c).

(** A literal character under [re.IGNORECASE]. *)
Definition is_char_i (c : ascii) : ascii → bool :=
  λ x, bool_decide (lower_char x = lower_char c).

Definition one_of (cs : string) : ascii → bool :=
  λ x, bool_decide (x ∈ py cs).

Definition none_of (cs : pystr) : ascii → bool :=
  λ x, negb (bool_decide (x ∈ cs)).

(** The patterns of a list one after the other. *)
Definition cat_all (rs : list regex) : regex := foldr Cat Eps rs.

(** A literal word. *)
Definition lit (w : string) : regex := cat_all (Chr ∘ is_char <$> py w).

(** A literal word under [re.IGNORECASE]. *)
Definition lit_i (w : string) : regex := cat_all (Chr ∘ is_char_i <$> py w).

Definition star (p : ascii → bool) : regex := Rep p 0 None.
Definition plus (p : ascii → bool) : regex := Rep p 1 None.
Definition opt (p : ascii → bool) : regex := Rep p 0 (Some 1).
Definition between (p : ascii → bool) (lo hi : nat) : regex := Rep p lo (Some hi).

(** [re.search(r, s)] used as a condition. *)
Definition re_test (r : regex) (s : pystr) : bool := bool_decide (is_Some (re_search r s)).

Definition LF : ascii := "010"%char.
Definition CR : ascii := "013"%char.

(** *** The patterns of the script *)

(** [(\d{1,2}[-/]\d{1,2}[-/]\d{2,4}|\d{4}[-/]\d{1,2}[-/]\d{1,2})] *)
Definition date_pattern : regex :=
  Group 1
    (Alt
       (cat_all [between isdigit 1 2; Chr (one_of "-/"); between isdigit 1 2;
                 Chr (one_of "-/"); between isdigit 2 4])
       (cat_all [between isdigit 4 4; Chr (one_of "-/"); between isdigit 1 2;
                 Chr (one_of "-/"); between isdigit 1 2])).

(** [(last date|deadline|apply by)\s*:?([^\n\r]+)] with [re.IGNORECASE] *)
Definition deadline_pattern : regex :=
  cat_all [Group 1 (Alt (lit_i "last date") (Alt (lit_i "deadline") (lit_i "apply by")));
           star isspace; opt (is_char ":"%char); Group 2 (plus (none_of [LF; CR]))].

(** The class [[A-Za-z ,&\-]] of the area pattern, on the characters of
    [pystr]. The pattern is compiled with [re.IGNORECASE], under which the
    class also takes the characters whose case folding is a letter of it:
    U+0130 and U+0131 (dotted and dotless i), U+017F (long s) and U+212A
    (Kelvin sign). All four lie above code point 255, outside [pystr]; on the
    code points below 256 the flag adds nothing to the class. *)
Definition area_char (c : ascii) : bool :=
  in_range 65 90 c || in_range 97 122 c || one_of " ,&-" c.

(** The same class over all code points, with what [re.IGNORECASE] adds to
    it. *)
Definition area_class_ignorecase (cp : N) : bool :=
  ((65 <=? cp) && (cp <=? 90) || (97 <=? cp) && (cp <=? 122)
   || bool_decide (cp ∈ [32; 44; 38; 45])
   || bool_decide (cp ∈ [304; 305; 383; 8490]))%N.

(** [Area\s*:?([A-Za-z ,&\-]+)(Deadline|$)] with [re.IGNORECASE] *)
Definition area_pattern : regex :=
  cat_all [lit_i "Area"; star isspace; opt (is_char ":"%char); Group 1 (plus area_char);
           Group 2 (Alt (lit_i "Deadline") EndOfString)].

(** [\bmatric\b] *)
Definition matric_pattern : regex := cat_all [WordBoundary; lit "matric"; WordBoundary].
(** [\binter\b|intermediate] *)
Definition inter_pattern : regex :=
  Alt (cat_all [WordBoundary; lit "inter"; WordBoundary]) (lit "intermediate").
(** [\bbachelor|undergrad] *)
Definition bachelor_pattern : regex :=
  Alt (Cat WordBoundary (lit "bachelor")) (lit "undergrad").
(** [\bms|m\.phil|master] *)
Definition masters_pattern : regex :=
  Alt (Cat WordBoundary (lit "ms")) (Alt (lit "m.phil") (lit "master")).
(** [\bphd|doctoral] *)
Definition phd_pattern : regex :=
  Alt (Cat WordBoundary (lit "phd")) (lit "doctoral").

(** [(?<=[.!?])\s+] *)
Definition sentence_sep : regex := Cat (LookBehind (one_of ".!?")) (plus isspace).

(** [^h[1-6]$] *)
Definition heading_name : regex :=
  cat_all [StartOfString; Chr (is_char "h"%char); Chr (in_range 49 54); EndOfString].

(** ** Parsed pages

    What [BeautifulSoup(html, "html.parser")] hands to the script: a tree of
    tags and text nodes. The parser itself is outside the script. Comments,
    scripts and style sheets are no text to [stripped_strings] and are left
    out of the tree. *)

Inductive node :=
| Text (s : pystr)
| Tag (name : pystr) (attrs : gmap pystr pystr) (children : list node).

(** The parsed document: the top-level nodes of the soup. *)
Definition soup := list node.

(** Every tag below the given nodes, in document order, each with its
    [next_siblings]. *)
Fixpoint walk (n : node) (after : list node) : list (node * list node) :=
  match n with
  | Text _ => []
  | Tag _ _ children =>
      (n, after) ::
      (fix walk_children (l : list node) : list (node * list node) :=
         match l with
         | [] => []
         | c :: rest => walk c rest ++ walk_children rest
         end) children
  end.

Fixpoint walk_all (l : list node) : list (node * list node) :=
  match l with
  | [] => []
  | c :: rest => walk c rest ++ walk_all rest
  end.

(** The strings below a node in document order; a text node gives itself. *)
Fixpoint all_strings (n : node) : list pystr :=
  match n with
  | Text s => [s]
  | Tag _ _ children =>
      (fix strings_of (l : list node) : list pystr :=
         match l with
         | [] => []
         | c :: rest => all_strings c ++ strings_of rest
         end) children
  end.

(** [el.stripped_strings]: each string stripped, the empty ones dropped. *)
Definition stripped_strings (n : node) : list pystr :=
  filter (λ s, s ≠ []) (strip <$> all_strings n).

(** [el.get_text(" ", strip=True)] *)
Definition get_text_strip (n : node) : pystr := join (py " ") (stripped_strings n).

Definition tag_name (n : node) : option pystr :=
  match n with Tag name _ _ => Some name | Text _ => None end.

Definition attr (n : node) (key : string) : option pystr :=
  match n with Tag _ attrs _ => attrs !! py key | Text _ => None end.

(** The maximal runs of non-space characters, as the parser splits a
    [class] attribute. *)
Fixpoint words_from (cur : pystr) (s : pystr) : list pystr :=
  match s with
  | [] => match cur with [] => [] | _ => [reverse cur] end
  | c :: s' =>
      if isspace c
      then match cur with [] => words_from [] s' | _ => reverse cur :: words_from [] s' end
      else words_from (c :: cur) s'
  end.

Definition has_name (name : string) (n : node) : bool :=
  bool_decide (tag_name n = Some (py name)).

Definition has_class (cls : string) (n : node) : bool :=
  match attr n "class" with
  | Some v => bool_decide (py cls ∈ words_from [] v)
  | None => false
  end.

Definition has_id (ident : string) (n : node) : bool :=
  bool_decide (attr n "id" = Some (py ident)).

Definition is_heading (n : node) : bool :=
  match tag_name n with
  | Some name => re_test heading_name name
  | None => false
  end.

(** [soup.select_one(selector)]: the first tag in document order that the
    selector accepts. *)
Definition select_one (sel : node → bool) (doc : soup) : option node :=
  head (filter (λ n, sel n = true) ((walk_all doc).*1)).

(** [a or b] on the results of [select_one]: a tag is always true, [None]
    is false. *)
Definition or_tag (a b : option node) : option node :=
  match a with Some _ => a | None => b end.

(** [extract_text] *)
Definition extract_text (el : option node) : pystr :=
  match el with
  | Some n => join (py " ") (stripped_strings n)
  | None => []
  end.

(** The siblings up to the next heading tag. *)
Fixpoint until_heading (sibs : list node) : list node :=
  match sibs with
  | [] => []
  | sib :: rest => if is_heading sib then [] else sib :: until_heading rest
  end.

(** [guess_field_by_heading]: the first heading whose lowered text contains
    one of the keys decides; text siblings contribute like tags, as in the
    versions of the parser where every node has [get_text]. *)
Fixpoint scan_headings (hs : list (node * list node)) (heading_texts : list pystr)
    : pystr :=
  match hs with
  | [] => []
  | (h, sibs) :: hs' =>
      let txt := lower (get_text_strip h) in
      if existsb (λ key, contains key txt) heading_texts
      then strip (join (py " ") ((λ sib, extract_text (Some sib)) <$> until_heading sibs))
      else scan_headings hs' heading_texts
  end.

Definition guess_field_by_heading (doc : soup) (heading_texts : list string) : pystr :=
  scan_headings (filter (λ h, is_heading h.1 = true) (walk_all doc)) (py <$> heading_texts).

(** ** Records *)

Record ScholarshipRecord := {
  title : pystr;
  url : pystr;
  offered_by : pystr;
  level : pystr;
  type_ : pystr;
  amount : pystr;
  eligibility : pystr;
  deadline : pystr;
  area : pystr;
  application_link : pystr;
  summary : pystr;
  full_content : pystr;
  scraped_at : pystr;
}.

(** [sorted(set(level))]: strings compare by code point. *)
Definition pystr_le (a b : pystr) : Prop :=
  String.le (String.string_of_list_ascii a) (String.string_of_list_ascii b).

Global Instance pystr_le_dec : RelDecision pystr_le.
Proof. intros a b. unfold pystr_le. apply _. Defined.

Definition sorted_set (l : list pystr) : list pystr :=
  merge_sort pystr_le (elements (list_to_set l : gset pystr)).

Section FieldExtractor.
(** What the script takes from its libraries and the outside: the page
    fetch, the HTML parser, [urljoin] and the clock. *)
Variable fetch : pystr → option pystr.
Variable BeautifulSoup : pystr → soup.
Variable urljoin : pystr → pystr → pystr.
Variable now_isoformat : pystr.

Definition title_of (doc : soup) : pystr :=
  extract_text (or_tag (select_one (has_name "h1") doc)
                  (or_tag (select_one (has_class "post-title") doc)
                          (select_one (has_name "title") doc))).

Definition full_content_of (doc : soup) : pystr :=
  let main := or_tag (select_one (has_name "article") doc)
                (or_tag (select_one (has_id "content") doc)
                        (select_one (has_name "body") doc)) in
  replace_char nbsp " "%char (extract_text main).

Definition deadline_of (doc : soup) : pystr :=
  let deadline :=
    match re_search deadline_pattern (full_content_of doc) with
    | Some m => strip (group m 2)
    | None => []
    end in
  match deadline with
  | [] => guess_field_by_heading doc ["deadline"; "last date"; "apply by"; "closing date"]
  | _ => deadline
  end.

Definition level_tags (text_lower : pystr) : list pystr :=
  (if re_test matric_pattern text_lower then [py "Matric"] else []) ++
  (if re_test inter_pattern text_lower then [py "Intermediate"] else []) ++
  (if re_test bachelor_pattern text_lower then [py "Bachelor"] else []) ++
  (if re_test masters_pattern text_lower then [py "Masters/MPhil"] else []) ++
  (if re_test phd_pattern text_lower then [py "PhD"] else []).

Definition level_of (doc : soup) : pystr :=
  let text_lower := lower (full_content_of doc) in
  join (py ", ") (sorted_set (level_tags text_lower)).

Definition type_of (doc : soup) : pystr :=
  let text_lower := lower (full_content_of doc) in
  if contains (py "merit") text_lower && contains (py "need") text_lower
  then py "Merit & Need Based"
  else if contains (py "merit") text_lower then py "Merit Based"
  else if contains (py "need") text_lower then py "Need Based"
  else [].

Definition area_of (doc : soup) : pystr :=
  let area :=
    match re_search area_pattern (full_content_of doc) with
    | Some m => strip (group m 1)
    | None => []
    end in
  match area with
  | [] => guess_field_by_heading doc ["area"; "region"; "province"]
  | _ => area
  end.

Definition apply_link_of (page_url : pystr) (doc : soup) : pystr :=
  let anchors :=
    filter (λ a, has_name "a" a = true ∧ is_Some (attr a "href")) ((walk_all doc).*1) in
  let wanted a :=
    let txt := lower (get_text_strip a) in
    existsb (λ k, contains (py k) txt) ["apply"; "application"; "form"] in
  match head (filter (λ a, wanted a = true) anchors) with
  | Some a => urljoin page_url (default [] (attr a "href"))
  | None => []
  end.

Definition summary_of (doc : soup) : pystr :=
  strip (join (py " ") (take 3 (re_split sentence_sep (full_content_of doc)))).

(** The record [extract_fields] builds from a parsed page. *)
Definition page_fields (page_url : pystr) (doc : soup) : ScholarshipRecord :=
  {| title := title_of doc;
     url := page_url;
     offered_by :=
       guess_field_by_heading doc ["offered by"; "organization"; "provider"; "sponsored"];
     level := level_of doc;
     type_ := type_of doc;
     amount := guess_field_by_heading doc ["amount"; "coverage"; "stipend"; "funding"];
     eligibility :=
       guess_field_by_heading doc ["eligib"; "criteria"; "requirements"; "who can apply"];
     deadline := deadline_of doc;
     area := area_of doc;
     application_link := apply_link_of page_url doc;
     summary := summary_of doc;
     full_content := full_content_of doc;
     scraped_at := now_isoformat |}.

(** [extract_fields]: nothing when the fetch failed or gave an empty page. *)
Definition extract_fields (page_url : pystr) : option ScholarshipRecord :=
  match fetch page_url with
  | None | Some [] => None
  | Some html => Some (page_fields page_url (BeautifulSoup html))
  end.
End FieldExtractor.

(** ** Cleaning the deadline *)

(** A [datetime.date]. *)
Record Date := { year : Z; month : Z; day : Z }.

(** What [pd.to_datetime] returns: a timestamp (of which only the date is
    read) or [NaT]. *)
Inductive Timestamp :=
| NaT
| Stamp (d : Date).

(** A library call returns or raises. *)
Inductive outcome (A : Type) :=
| Returned (a : A)
| Raised.
Arguments Returned {A} a.
Arguments Raised {A}.

(** The argument of [extract_date]: a [str] or any other object ([None], a
    float, ...). *)
Inductive pyobj :=
| Str (s : pystr)
| NotStr.

(** What [extract_date] can return: [None], a [datetime.date], or [NaT],
    which is what [NaT.date()] is. *)
Inductive cleaned :=
| CNone
| CDate (d : Date)
| CNaT.

(** [Timestamp.date()] *)
Definition date_of (t : Timestamp) : cleaned :=
  match t with
  | NaT => CNaT
  | Stamp d => CDate d
  end.

(** The parsing steps taken, in order: the search for the numeric pattern,
    the parse of what it matched, the fuzzy parse. *)
Inductive call :=
| NumericSearch (arg : pystr)
| ToDatetime (arg : pystr)
| ParserParse (arg : pystr).

(** A row of the data frame of [main]: the record and the added column. *)
Record Row := {
  row_record : ScholarshipRecord;
  clean_deadline : cleaned;
}.

Section DateNormalizer.
(** [pd.to_datetime(_, errors="coerce", dayfirst=True)] *)
Variable to_datetime : pystr → outcome Timestamp.
(** [parser.parse(_, fuzzy=True, dayfirst=False, ignoretz=True).date()] *)
Variable parser_parse : pystr → outcome Date.

(** The last step of [extract_date]: the fuzzy parse, [None] when it raises. *)
Definition month_name_formats (text : pystr) (log : list call) : cleaned * list call :=
  match parser_parse text with
  | Returned d => (CDate d, log ++ [ParserParse text])
  | Raised => (CNone, log ++ [ParserParse text])
  end.

(** [extract_date], with the log of the parsing steps it took. *)
Definition extract_date (text : pyobj) : cleaned * list call :=
  match text with
  | NotStr => (CNone, [])
  | Str text =>
      if bool_decide (strip text = []) then (CNone, [])
      else if existsb (λ p, startswith (py p) (lower (strip text))) ["n.a"; "na"; "n/a"]
      then (CNone, [])
      else
        match re_search date_pattern text with
        | Some m =>
            match to_datetime (group m 0) with
            | Returned t => (date_of t, [NumericSearch text; ToDatetime (group m 0)])
            | Raised =>
                month_name_formats text [NumericSearch text; ToDatetime (group m 0)]
            end
        | None => month_name_formats text [NumericSearch text]
        end
  end.

(** ** The Bachelor filter of [main] *)

(** [df["clean_deadline"] = df["deadline"].apply(extract_date)] *)
Definition data_frame (results : list ScholarshipRecord) : list Row :=
  (λ r, {| row_record := r;
           clean_deadline := (extract_date (Str (deadline r))).1 |}) <$> results.

(** [.str.contains("Bachelor", case=False, na=False)]: a search for the
    pattern under [re.IGNORECASE]. *)
Definition str_contains_bachelor (s : pystr) : bool := re_test (lit_i "Bachelor") s.

(** [bachelors_df] *)
Definition bachelors_df (results : list ScholarshipRecord) : list Row :=
  filter (λ row, str_contains_bachelor (level (row_record row)) = true)
         (data_frame results).

(** The rows [main] writes to the Bachelor file from the records it
    collected; with no record it writes nothing. *)
Definition main_bachelors (results : list ScholarshipRecord) : option (list Row) :=
  match results with
  | [] => None
  | _ => Some (bachelors_df results)
  end.
End DateNormalizer.

(** [main]: every link is scraped, the pages that could not be fetched are
    left out, and the Bachelor rows are derived from what was collected. *)
Definition main (fetch : pystr → option pystr) (BeautifulSoup : pystr → soup)
    (urljoin : pystr → pystr → pystr) (now_isoformat : pystr)
    (to_datetime : pystr → outcome Timestamp) (parser_parse : pystr → outcome Date)
    (links : list pystr) : option (list Row) :=
  main_bachelors to_datetime parser_parse
    (omap (extract_fields fetch BeautifulSoup urljoin now_isoformat) links).

(** ** The numeric parse

    [pd.to_datetime] belongs to pandas, not to the script. The definitions
    below model it on the texts the numeric pattern can match: three numeric
    fields separated by [-] or [/]. *)

Fixpoint decimal_value (acc : Z) (s : pystr) : Z :=
  match s with
  | [] => acc
  | c :: s' => decimal_value (10 * acc + (Z.of_N (code c) - 48)) s'
  end.

(** The fields between the separators [-] and [/]. *)
Fixpoint split_fields (cur : pystr) (s : pystr) : list pystr :=
  match s with
  | [] => [reverse cur]
  | c :: s' =>
      if one_of "-/" c then reverse cur :: split_fields [] s'
      else split_fields (c :: cur) s'
  end.

Definition is_number (f : pystr) : bool :=
  negb (bool_decide (f = [])) && forallb isdigit f.

Definition is_leap (y : Z) : bool :=
  ((y mod 4 =? 0) && (negb (y mod 100 =? 0) || (y mod 400 =? 0)))%Z.

Definition days_in_month (y m : Z) : Z :=
  (if m =? 2 then (if is_leap y then 29 else 28)
   else if (m =? 4) || (m =? 6) || (m =? 9) || (m =? 11) then 30
   else 31)%Z.

(** What the [datetime] constructor accepts. *)
Definition valid_date (y m d : Z) : bool :=
  ((1 <=? y) && (y <=? 9999) && (1 <=? m) && (m <=? 12)
   && (1 <=? d) && (d <=? days_in_month y m))%Z.

(** The days a nanosecond timestamp can hold at midnight:
    1677-09-22 to 2262-04-11. *)
Definition in_bounds (y m d : Z) : bool :=
  (((1677 <? y) || ((y =? 1677) && ((9 <? m) || ((m =? 9) && (22 <=? d)))))
   && ((y <? 2262) || ((y =? 2262) && ((m <? 4) || ((m =? 4) && (d <=? 11))))))%Z.

(** A two-digit year is put within fifty years of the current one. *)
Definition convertyear (this_year : Z) (century_specified : bool) (y : Z) : Z :=
  (if (y <? 100) && negb century_specified then
     let y' := y + this_year / 100 * 100 in
     if this_year + 50 <=? y' then y' - 100
     else if y' <? this_year - 50 then y' + 100
     else y'
   else y)%Z.

(** Which of three numbers is the year, the month and the day, with the day
    before the month where both readings are possible. A field of more than
    two digits is a year. *)
Definition resolve_ymd (f0 f1 f2 : pystr) : Z * Z * Z :=
  let v0 := decimal_value 0 f0 in
  let v1 := decimal_value 0 f1 in
  let v2 := decimal_value 0 f2 in
  (if (31 <? v0) || (2 <? Z.of_nat (length f0)) then
     if v2 <=? 12 then (v0, v2, v1) else (v0, v1, v2)
   else if (12 <? v0) || (v1 <=? 12) then (v2, v1, v0)
   else (v2, v0, v1))%Z.

(** Modelled from the spec: [pd.to_datetime(s, errors="coerce", dayfirst=True)],
    a call into pandas, which is not part of the repository. The spec asks for
    a parse "with day-before-month precedence (ambiguous numeric dates favor
    day-first interpretation)"; the model reads the three fields the way pandas 2
    and the dateutil parser behind it do, reads the clock for the century of a
    two-digit year, and with [errors="coerce"] answers [NaT], without raising,
    for a text that is no date or no date a timestamp can hold. *)
Definition pd_to_datetime (this_year : Z) (s : pystr) : outcome Timestamp :=
  Returned
    match split_fields [] s with
    | [f0; f1; f2] =>
        let long f := (2 <? length f)%nat in
        if forallb is_number [f0; f1; f2]
           && bool_decide (length (filter (λ f, long f = true) [f0; f1; f2]) ≤ 1)
        then
          let '(y0, m, d) := resolve_ymd f0 f1 f2 in
          let y := convertyear this_year (existsb long [f0; f1; f2]) y0 in
          if valid_date y m d && in_bounds y m d
          then Stamp {| year := y; month := m; day := d |}
          else NaT
        else NaT
    | _ => NaT
    end.

(** ** Link discovery *)

Definition BASE : pystr := py "https://www.eduvision.edu.pk".
Definition LISTING_PATH : pystr := py "/scholarships/".

(** The page number as the f-string writes it. *)
Definition str_of_nat (n : nat) : pystr := py (NilZero.string_of_uint (Nat.to_uint n)).

(** [s.endswith(suffix)] *)
Definition endswith (suffix s : pystr) : bool :=
  startswith (reverse suffix) (reverse s).

(** [s.split("#")[0]] *)
Fixpoint before_hash (s : pystr) : pystr :=
  match s with
  | [] => []
  | c :: s' => if bool_decide (c = "#"%char) then [] else c :: before_hash s'
  end.

Section LinkDiscovery.
Variable fetch : pystr → option pystr.
Variable BeautifulSoup : pystr → soup.
Variable urljoin : pystr → pystr → pystr.

(** [urljoin(BASE, f"{LISTING_PATH}?page={page}")] *)
Definition listing_url (page : nat) : pystr :=
  urljoin BASE (LISTING_PATH ++ py "?page=" ++ str_of_nat page).

(** [soup.select("a[href*='/scholarships/']")] *)
Definition listing_anchors (doc : soup) : list node :=
  filter (λ a, has_name "a" a = true ∧
               from_option (contains (py "/scholarships/")) false (attr a "href") = true)
         ((walk_all doc).*1).

(** The test on the [href] of a selected anchor. *)
Definition detail_href (href : pystr) : bool :=
  negb (bool_decide (href = [])) && contains (py "/scholarships/") href
  && negb (endswith (py "/scholarships/") href).

(** [found_links] of one listing page. *)
Definition found_links (doc : soup) : gset pystr :=
  list_to_set
    ((λ href, before_hash (urljoin BASE href)) <$>
     filter (λ href, detail_href href = true)
            (omap (λ a, attr a "href") (listing_anchors doc))).

(** The [while page <= max_pages] loop, with the log of the listing addresses
    fetched; [rounds] is the number of pages still allowed,
    [max_pages + 1 - page]. *)
Fixpoint discover_loop (rounds page : nat) (links : gset pystr) (log : list pystr)
    : gset pystr * list pystr :=
  match rounds with
  | O => (links, log)
  | S rounds' =>
      match fetch (listing_url page) with
      | None | Some [] => (links, log ++ [listing_url page])
      | Some html =>
          let new_links := found_links (BeautifulSoup html) ∖ links in
          if decide (new_links = ∅) then (links, log ++ [listing_url page])
          else discover_loop rounds' (S page) (links ∪ new_links)
                 (log ++ [listing_url page])
      end
  end.

(** [discover_links_from_listing]: the sorted links, and the addresses
    fetched. *)
Definition discover_links_from_listing (max_pages : nat) : list pystr * list pystr :=
  let '(links, log) := discover_loop max_pages 1 ∅ [] in
  (merge_sort pystr_le (elements links), log).
End LinkDiscovery.

(** * Vocabulary of the properties *)

(** No white space at the start, resp. at the end. *)
Definition starts_clean (s : pystr) : Prop :=
  ∀ c, head s = Some c → isspace c = false.
Definition ends_clean (s : pystr) : Prop :=
  ∀ c, last s = Some c → isspace c = false.
(** What [strip] produces and leaves alone. *)
Definition clean (s : pystr) : Prop := starts_clean s ∧ ends_clean s.

(** A non-empty text with clean ends. *)
Definition solid (s : pystr) : Prop := s ≠ [] ∧ clean s.

(** The vocabulary of the level field with the test of each term, in the
    order the script runs the tests. *)
Definition level_vocabulary : list (string * regex) :=
  [("Matric", matric_pattern); ("Intermediate", inter_pattern);
   ("Bachelor", bachelor_pattern); ("Masters/MPhil", masters_pattern);
   ("PhD", phd_pattern)].

(** The vocabulary in sorted order. *)
Definition level_vocabulary_sorted : list (string * regex) :=
  [("Bachelor", bachelor_pattern); ("Intermediate", inter_pattern);
   ("Masters/MPhil", masters_pattern); ("Matric", matric_pattern);
   ("PhD", phd_pattern)].

(** A detail page. *)
Definition sample_page : soup :=
  [Tag (py "html") ∅
     [Tag (py "head") ∅ [Tag (py "title") ∅ [Text (py "Scholarships | EduVision")]];
      Tag (py "body") ∅
        [Tag (py "h1") ∅ [Text (py " HEC Need Based Scholarship ")];
         Tag (py "p") ∅
           [Text (py "Merit and need based scholarship for deserving students. Bachelor of Science students are eligible! Apply online. Forms are free.")];
         Tag (py "p") ∅ [Text (py "Last Date: 15-02-2024")];
         Tag (py "h2") ∅ [Text (py "Eligibility Criteria")];
         Tag (py "p") ∅ [Text (py "Enrolled in BS."); Tag (py "b") ∅ [Text (py " Pakistani ")]];
         Text (py "  nationals only ");
         Tag (py "h3") ∅ [Text (py "Area")];
         Tag (py "p") ∅ [Text (py "Punjab")];
         Tag (py "a") {[ py "href" := py "/apply/hec" ]} [Text (py "Application Form")]]]].

(** A page of one paragraph, with a label and four sentences. *)
Definition label_page : soup :=
  [Tag (py "body") ∅
     [Tag (py "p") ∅ [Text (py "Open to all. Apply now! Fee? None. Deadline: 15-02-2024")]]].

(** The match of the deadline pattern in the full content of that page. *)
Definition label_page_match : option Match :=
  Eval vm_compute in re_search deadline_pattern (full_content_of label_page).

(** The texts the numeric pattern matches: three runs of digits with a [-] or
    a [/] between them, day-month-year with a year of two to four digits, or
    year-month-day with a year of four. *)
Definition numeric_date_text (arg : pystr) : Prop :=
  ∃ f1 s1 f2 s2 f3,
    arg = f1 ++ [s1] ++ f2 ++ [s2] ++ f3 ∧
    Forall (λ c, isdigit c = true) (f1 ++ f2 ++ f3) ∧
    one_of "-/" s1 = true ∧ one_of "-/" s2 = true ∧
    ((1 ≤ length f1 ≤ 2 ∧ 1 ≤ length f2 ≤ 2 ∧ 2 ≤ length f3 ≤ 4) ∨
     (length f1 = 4 ∧ 1 ≤ length f2 ≤ 2 ∧ 1 ≤ length f3 ≤ 2)).

(** [link] is what a listing page gives for one of its anchors: the anchor's
    [href] holds the listing path without ending with it, and the link is the
    joined address up to its fragment. *)
Definition listed_link (urljoin : pystr → pystr → pystr) (doc : soup) (link : pystr) : Prop :=
  ∃ a href,
    a ∈ (walk_all doc).*1 ∧ has_name "a" a = true ∧ attr a "href" = Some href ∧
    contains (py "/scholarships/") href = true ∧
    endswith (py "/scholarships/") href = false ∧
    link = before_hash (urljoin BASE href).

(** The title as the claim words it: the first non-empty text among the
    three elements. *)
Definition first_nonempty (texts : list pystr) : pystr :=
  default [] (head (filter (λ t, t ≠ []) texts)).

Definition title_first_nonempty (doc : soup) : pystr :=
  first_nonempty [extract_text (select_one (has_name "h1") doc);
                  extract_text (select_one (has_class "post-title") doc);
                  extract_text (select_one (has_name "title") doc)].

(** The first element that exists. *)
Definition first_existing (els : list (option node)) : option node :=
  head (omap id els).

(** A page whose [h1] is empty and whose [title] is not. *)
Definition empty_heading_page : soup :=
  [Tag (py "html") ∅
     [Tag (py "head") ∅ [Tag (py "title") ∅ [Text (py "Need Based Scholarship")]];
      Tag (py "body") ∅ [Tag (py "h1") ∅ []; Tag (py "p") ∅ [Text (py "Apply now.")]]]].

(** The label words of the deadline pattern. *)
Definition deadline_labels : list string := ["last date"; "deadline"; "apply by"].

(** [text] follows a label in [content], the label starting at position
    [start]: after the label come white space, possibly, and a colon,
    possibly, and then [text], which is not empty and runs to the end of its
    line. *)
Definition follows_label (content text : pystr) (start : nat) : Prop :=
  ∃ before label gap colon rest,
    content = before ++ label ++ gap ++ colon ++ text ++ rest ∧
    length before = start ∧
    (∃ w, w ∈ deadline_labels ∧ lower label = py w) ∧
    Forall (λ c, isspace c = true) gap ∧
    (colon = [] ∨ colon = py ":") ∧
    text ≠ [] ∧ Forall (λ c, c ≠ LF ∧ c ≠ CR) text ∧
    (∀ c, head rest = Some c → c = LF ∨ c = CR).

(** The match [m] is the first in [content]: its capture follows a label,
    and the pattern matches at no earlier position. *)
Definition first_label_capture (content : pystr) (m : Match) : Prop :=
  follows_label content (group m 2) (m_start m) ∧
  ∀ i, i < m_start m →
    match_here deadline_pattern content (reverse (take i content)) (drop i content) = None.

Definition deadline_headings : list string :=
  ["deadline"; "last date"; "apply by"; "closing date"].

(** The deadline as the claim words it: the trimmed capture when the search
    matches, the heading-based text exactly when it does not. *)
Definition deadline_as_claimed (doc : soup) : pystr :=
  match re_search deadline_pattern (full_content_of doc) with
  | Some m => strip (group m 2)
  | None => guess_field_by_heading doc deadline_headings
  end.

(** A page where only white space follows the label on its line, and a
    heading section gives the date. *)
Definition blank_label_page : soup :=
  [Tag (py "html") ∅
     [Tag (py "body") ∅
        [Tag (py "p") ∅ [Text (py "Deadline:  " ++ [LF] ++ py "see the section below.")];
         Tag (py "h2") ∅ [Text (py "Closing date")];
         Tag (py "p") ∅ [Text (py "31 May 2024")]]]].

Definition blank_label_match : Match :=
  {| m_string := full_content_of blank_label_page;
     m_start := 0; m_end := 11; m_groups := [(2, (9, 11)); (1, (0, 8))] |}.

(** The inputs [extract_date] refuses before any parse: not a string, blank,
    or starting with a not-available marker once stripped and lowered. *)
Definition refused (text : pyobj) : Prop :=
  match text with
  | NotStr => True
  | Str s =>
      Forall (λ c, isspace c = true) s ∨
      ∃ marker rest, marker ∈ ["n.a"; "na"; "n/a"] ∧ lower (strip s) = py marker ++ rest
  end.

(** No sentence boundary inside [u]: no full stop, exclamation mark or
    question mark of [u] has white space right after it in [u]. *)
Definition boundary_free (u : pystr) : Prop :=
  ∀ a p w b, u = a ++ p :: w :: b → one_of ".!?" p = true → isspace w = false.

(** The sentence-like units of a text, as the claim words them: the text is
    cut at every [.], [!] or [?] that white space follows. The punctuation
    stays at the end of its unit, the white space after it - all of it, up to
    the next character that is none - belongs to no unit, and no unit has a
    boundary inside. *)
Inductive sentence_units : pystr → list pystr → Prop :=
  | units_last u :
      boundary_free u → sentence_units u [u]
  | units_cons u p ws rest units :
      boundary_free (u ++ [p]) → one_of ".!?" p = true →
      ws ≠ [] → Forall (λ c, isspace c = true) ws → starts_clean rest →
      sentence_units rest units →
      sentence_units ((u ++ [p]) ++ ws ++ rest) ((u ++ [p]) :: units).

(** * Properties *)

(** ** Strings *)

Lemma lstrip_split s : ∃ w, s = w ++ lstrip s ∧ Forall (λ c, isspace c = true) w.
Proof.
  induction s as [|c s [w [Hs Hw]]]; simpl.
  - by exists [].
  - destruct (isspace c) eqn:Hc.
    + exists (c :: w). split; [simpl; by f_equal | by constructor].
    + by exists [].
Qed.

Lemma lstrip_starts_clean s : starts_clean (lstrip s).
Proof.
  induction s as [|c s IH]; simpl; [by intros ?|].
  destruct (isspace c) eqn:Hc; [done|]. intros c' [= <-]. done.
Qed.

Lemma lstrip_id s : starts_clean s → lstrip s = s.
Proof.
  destruct s as [|c s]; [done|]. intros H. simpl. by rewrite (H c eq_refl).
Qed.

Lemma lstrip_spaces s : Forall (λ c, isspace c = true) s → lstrip s = [].
Proof. induction 1 as [|c s Hc _ IH]; simpl; [done|]. by rewrite Hc. Qed.

Lemma rstrip_split s : ∃ w, s = rstrip s ++ w ∧ Forall (λ c, isspace c = true) w.
Proof.
  unfold rstrip. destruct (lstrip_split (reverse s)) as [w [Hs Hw]].
  exists (reverse w). split.
  - rewrite <-reverse_app, <-Hs. by rewrite reverse_involutive.
  - by apply Forall_reverse.
Qed.

Lemma rstrip_ends_clean s : ends_clean (rstrip s).
Proof.
  unfold rstrip. intros c. rewrite last_reverse. apply lstrip_starts_clean.
Qed.

Lemma rstrip_id s : ends_clean s → rstrip s = s.
Proof.
  intros H. unfold rstrip. rewrite lstrip_id; [apply reverse_involutive|].
  intros c. rewrite head_reverse. apply H.
Qed.

Lemma rstrip_starts_clean s : starts_clean s → starts_clean (rstrip s).
Proof.
  intros H c Hc. destruct (rstrip_split s) as [w [Hs _]].
  apply H. rewrite Hs. destruct (rstrip s); simplify_eq/=. done.
Qed.

Lemma strip_clean s : clean (strip s).
Proof.
  split; unfold strip.
  - apply rstrip_starts_clean, lstrip_starts_clean.
  - apply rstrip_ends_clean.
Qed.

Lemma strip_id s : clean s → strip s = s.
Proof. intros [H1 H2]. unfold strip. rewrite lstrip_id by done. by apply rstrip_id. Qed.

(** [strip] gives the empty string exactly on white space. *)
Lemma strip_nil_iff s : strip s = [] ↔ Forall (λ c, isspace c = true) s.
Proof.
  split.
  - intros H. destruct (lstrip_split s) as [w [Hs Hw]].
    destruct (rstrip_split (lstrip s)) as [w' [Hs' Hw']].
    unfold strip in H. rewrite H in Hs'. simpl in Hs'.
    rewrite Hs, Hs'. by apply Forall_app.
  - intros H. unfold strip. by rewrite (lstrip_spaces _ H).
Qed.

Lemma join_solid sep parts :
  parts ≠ [] → Forall solid parts → solid (join sep parts).
Proof.
  intros Hne Hall. induction Hall as [|p rest [Hp [Hs He]] Hrest IH]; [done|].
  destruct rest as [|q rest]; [done|].
  destruct IH as [IHne [IHs IHe]]; [done|].
  change (join sep (p :: q :: rest)) with (p ++ sep ++ join sep (q :: rest)).
  split; [|split].
  - destruct p; simplify_eq/=. done.
  - intros c Hc. apply Hs. destruct p; simplify_eq/=. done.
  - intros c Hc. apply IHe. rewrite !last_app in Hc.
    destruct (last (join sep (q :: rest))) eqn:Hl; [done|].
    apply last_None in Hl. done.
Qed.

Lemma replace_nbsp_clean s : clean s → clean (replace_char nbsp " " s).
Proof.
  assert (Hfix : ∀ c, isspace c = false →
            (if bool_decide (c = nbsp) then " "%char else c) = c).
  { intros c Hc. case_bool_decide; [|done]. subst. done. }
  intros [Hs He]. unfold replace_char. split.
  - intros c. destruct s as [|c0 s]; [done|]. simpl. intros [= <-].
    rewrite Hfix; by apply Hs.
  - intros c. rewrite <-head_reverse, <-fmap_reverse.
    assert (He' : ∀ c', head (reverse s) = Some c' → isspace c' = false).
    { intros c'. rewrite head_reverse. apply He. }
    destruct (reverse s) as [|c0 s']; [done|]. simpl. intros [= <-].
    rewrite Hfix; by apply He'.
Qed.

Lemma startswith_spec prefix s :
  startswith prefix s = true ↔ ∃ rest, s = prefix ++ rest.
Proof.
  revert s. induction prefix as [|p prefix IH]; intros s; simpl.
  - split; [by exists s | done].
  - destruct s as [|c s].
    + split; [done | by intros [? ?]].
    + rewrite andb_true_iff, bool_decide_eq_true, IH. split.
      * intros [-> [rest ->]]. by exists rest.
      * intros [rest [= -> ->]]. eauto.
Qed.

(** [contains] is the substring test. *)
Lemma contains_spec needle s :
  contains needle s = true ↔ ∃ before after, s = before ++ needle ++ after.
Proof.
  induction s as [|c s IH]; simpl.
  - rewrite orb_false_r, startswith_spec. split.
    + intros [rest H]. by exists [], rest.
    + intros [before [after H]]. destruct before; [by exists after|done].
  - rewrite orb_true_iff, startswith_spec, IH. split.
    + intros [[rest H]|[before [after H]]].
      * by exists [], rest.
      * exists (c :: before), after. by rewrite H.
    + intros [[|c' before] [after H]].
      * left. by exists after.
      * right. exists before, after. by simplify_eq/=.
Qed.

(** ** The matcher *)

Section MatcherFacts.
Context {A : Type}.
Implicit Types (k : @cont A) (x : A).

Lemma or_else_Some (a b : option A) x :
  or_else a b = Some x → a = Some x ∨ (a = None ∧ b = Some x).
Proof. destruct a; simpl; auto. Qed.

(** A repetition that answers took some characters of the class and then
    ran what follows. *)
Lemma rep_sound p lo hi pre suf caps k x :
  rep p lo hi pre suf caps k = Some x →
  ∃ taken rest, suf = taken ++ rest ∧ Forall (λ c, p c = true) taken ∧
    lo ≤ length taken ∧ (∀ h, hi = Some h → length taken ≤ h) ∧
    k (reverse taken ++ pre) rest caps = Some x.
Proof.
  revert lo hi pre. induction suf as [|c suf IH]; intros lo hi pre H.
  - exists [], []. destruct hi as [[|h]|], lo; simplify_eq/=.
    all: repeat split; auto with lia.
  - assert (Hstop : match lo with O => k pre (c :: suf) caps | S _ => None end = Some x →
      ∃ taken rest, c :: suf = taken ++ rest ∧ Forall (λ c, p c = true) taken ∧
        lo ≤ length taken ∧ (∀ h, hi = Some h → length taken ≤ h) ∧
        k (reverse taken ++ pre) rest caps = Some x).
    { intros Hs. exists [], (c :: suf). destruct lo; simplify_eq/=.
      repeat split; auto with lia. }
    simpl in H. destruct hi as [[|h]|]; [by apply Hstop| |].
    all: destruct (p c) eqn:Hc; [|by apply Hstop].
    all: apply or_else_Some in H as [H|[_ H]]; [|by apply Hstop].
    all: apply IH in H as (taken & rest & -> & Hall & Hlo & Hhi & Hk).
    all: exists (c :: taken), rest; rewrite reverse_cons, <-(assoc_L (++)); simpl.
    all: repeat split; [by constructor | lia | | done].
    + intros h' [= <-]. specialize (Hhi h eq_refl). lia.
    + done.
Qed.

(** Whatever the matcher answers was answered by what follows the pattern, on
    a later part of the same text. *)
Lemma rmatch_sound r pre suf caps k x :
  rmatch r pre suf caps k = Some x →
  ∃ taken rest caps', suf = taken ++ rest ∧
    k (reverse taken ++ pre) rest caps' = Some x.
Proof.
  revert pre suf caps k. induction r as [|p|p lo hi|a IHa b IHb|a IHa b IHb|n a IHa|
    |p| |]; intros pre suf caps k H; simpl in H.
  - by exists [], suf, caps.
  - destruct suf as [|c suf]; [done|]. destruct (p c); [|done].
    by exists [c], suf, caps.
  - apply rep_sound in H as (taken & rest & -> & _ & _ & _ & Hk). by exists taken, rest, caps.
  - apply IHa in H as (t1 & r1 & c1 & -> & H).
    apply IHb in H as (t2 & r2 & c2 & -> & H).
    exists (t1 ++ t2), r2, c2. split; [by rewrite <-(assoc_L (++))|].
    by rewrite reverse_app, <-(assoc_L (++)).
  - apply or_else_Some in H as [H|[_ H]]; eauto.
  - apply IHa in H as (t1 & r1 & c1 & -> & H). eauto.
  - destruct (at_word_boundary pre suf); [|done]. by exists [], suf, caps.
  - destruct pre as [|c pre]; [done|]. destruct (p c); [|done]. by exists [], suf, caps.
  - destruct pre; [|done]. by exists [], suf, caps.
  - destruct suf as [|c [|c' suf]]; [by exists [], [], caps| |done].
    case_bool_decide; [|done]. by exists [], [c], caps.
Qed.

(** With nothing after it to refuse, a repetition takes every character it
    can. *)
Lemma rep_total p hi pre suf caps k :
  (∀ pre' suf' caps', is_Some (k pre' suf' caps')) →
  is_Some (rep p 0 hi pre suf caps k).
Proof.
  intros Hk. destruct suf as [|c suf]; simpl.
  - by destruct hi as [[|h]|].
  - destruct hi as [[|h]|]; [done|..]; destruct (p c); try done.
    all: destruct (rep p 0 _ (c :: pre) suf caps k); simpl; [done|apply Hk].
Qed.

Lemma rep_greedy p lo pre suf caps k x :
  (∀ pre' suf' caps', is_Some (k pre' suf' caps')) →
  rep p lo None pre suf caps k = Some x →
  ∃ taken rest, suf = taken ++ rest ∧ Forall (λ c, p c = true) taken ∧
    lo ≤ length taken ∧ (∀ c, head rest = Some c → p c = false) ∧
    k (reverse taken ++ pre) rest caps = Some x.
Proof.
  intros Hk. revert lo pre. induction suf as [|c suf IH]; intros lo pre H.
  - exists [], []. destruct lo; simplify_eq/=. by repeat split.
  - simpl in H. destruct (p c) eqn:Hc.
    + apply or_else_Some in H as [H|[Hnone H]].
      * apply IH in H as (taken & rest & -> & Hall & Hlo & Hrest & Hx).
        exists (c :: taken), rest. rewrite reverse_cons, <-(assoc_L (++)). simpl.
        repeat split; [by constructor | lia | done | done].
      * destruct lo; [|done]. simpl in Hnone.
        destruct (rep_total p None (c :: pre) suf caps k Hk) as [y Hy]. congruence.
    + exists [], (c :: suf). destruct lo; [|done].
      repeat split; [done | simpl; lia | by intros ? [= <-] | done].
Qed.
End MatcherFacts.

(** ** Sentence boundaries *)

Lemma punctuation_not_space c : one_of ".!?" c = true → isspace c = false.
Proof.
  unfold one_of. rewrite bool_decide_eq_true. cbn.
  rewrite !elem_of_cons, elem_of_nil. by intros [->|[->|[->|[]]]].
Qed.

(** A sentence boundary right here: punctuation before, and all the white
    space that follows. *)
Lemma match_sentence_sep s pre suf m :
  match_here sentence_sep s pre suf = Some m →
  ∃ ws rest, suf = ws ++ rest ∧
    ws ≠ [] ∧ Forall (λ c, isspace c = true) ws ∧ starts_clean rest ∧
    (∃ p, head pre = Some p ∧ one_of ".!?" p = true) ∧
    m_start m = length pre ∧ m_end m = length pre + length ws.
Proof.
  unfold match_here, sentence_sep, plus. simpl. intros Hm.
  destruct pre as [|p pre]; [done|]. destruct (one_of ".!?" p) eqn:Hp; [|done].
  apply rep_greedy in Hm as (ws & rest & Hs & Hws & Hlen & Hrest & [= <-]); [|by eauto].
  exists ws, rest. simpl. rewrite length_app, length_reverse. simpl.
  repeat split; [done | | done | done | by eauto | lia].
  intros ->. simpl in Hlen. lia.
Qed.

(** Past the end of the text there is no boundary. *)
Lemma search_sentence_sep_end s pre : search_from sentence_sep s pre [] = None.
Proof.
  simpl. unfold match_here. simpl. destruct pre as [|p pre]; [done|].
  by destruct (one_of ".!?" p).
Qed.

(** A sentence boundary found at or after a position: the text before it
    ends in punctuation, the boundary is all the white space there. *)
Lemma search_sentence_sep s pre suf m :
  search_from sentence_sep s pre suf = Some m →
  ∃ before ws rest, suf = before ++ ws ++ rest ∧
    ws ≠ [] ∧ Forall (λ c, isspace c = true) ws ∧ starts_clean rest ∧
    (∃ p, head (reverse before ++ pre) = Some p ∧ one_of ".!?" p = true) ∧
    m_start m = length pre + length before ∧
    m_end m = length pre + length before + length ws.
Proof.
  revert pre. induction suf as [|c suf IH]; intros pre H.
  { by rewrite search_sentence_sep_end in H. }
  cbn [search_from] in H.
  destruct (match_here sentence_sep s pre (c :: suf)) as [m'|] eqn:Hm.
  - injection H as ->.
    apply match_sentence_sep in Hm as (ws & rest & Hs & Hne & Hws & Hrest & Hp & Hst & Hen).
    exists [], ws, rest. simpl. repeat split; [done..|lia|lia].
  - apply IH in H as (before & ws & rest & -> & Hne & Hws & Hrest & Hp & Hst & Hen).
    exists (c :: before), ws, rest. rewrite reverse_cons, <-(assoc_L (++)). simpl in *.
    repeat split; [done | done | done | done | lia | lia].
Qed.

(** The rounds given to [re_split] are enough: more would not change the
    result. *)
Lemma split_from_fuel n1 n2 s pos :
  length s - pos ≤ n1 → length s - pos ≤ n2 →
  split_from n1 sentence_sep s pos = split_from n2 sentence_sep s pos.
Proof.
  revert n2 pos. induction n1 as [|n1 IH]; intros n2 pos H1 H2.
  - destruct n2 as [|n2]; [done|]. simpl.
    rewrite (drop_ge s pos) by lia. by rewrite search_sentence_sep_end.
  - destruct n2 as [|n2]; simpl.
    + rewrite (drop_ge s pos) by lia. by rewrite search_sentence_sep_end.
    + destruct (search_from _ _ _ _) as [m|] eqn:Hm; [|done].
      apply search_sentence_sep in Hm as (before & ws & rest & Hs & Hne & _ & _ & _ & _ & Hen).
      assert (pos ≤ length s).
      { destruct (decide (pos ≤ length s)); [done|].
        rewrite drop_ge in Hs by lia. by destruct before, ws. }
      rewrite length_reverse, length_take_le in Hen by done.
      assert (0 < length ws) by (destruct ws; simpl; [done|lia]).
      f_equal. apply IH; lia.
Qed.

(** Splitting a text with clean ends gives units with clean ends. *)
Lemma split_solid fuel s pos :
  solid (drop pos s) → Forall solid (split_from fuel sentence_sep s pos).
Proof.
  revert pos. induction fuel as [|fuel IH]; intros pos Hsolid; simpl.
  { by constructor. }
  destruct (search_from _ _ _ _) as [m|] eqn:Hm; [|by constructor].
  apply search_sentence_sep in Hm
    as (before & ws & rest & Hs & Hne & Hws & Hrest & (p & Hp & Hpunct) & Hst & Hen).
  destruct Hsolid as [Hnil [Hstart Hend]].
  assert (Hpos : pos ≤ length s).
  { destruct (decide (pos ≤ length s)); [done|]. by rewrite drop_ge in Hnil by lia. }
  rewrite length_reverse, length_take_le in Hst, Hen by done.
  assert (Hw : ∃ w ws', ws = w :: ws' ∧ isspace w = true).
  { destruct ws as [|w ws']; [done|]. apply Forall_cons in Hws as [? _]. eauto. }
  destruct Hw as (w & ws' & -> & Hw).
  assert (Hbefore : before ≠ []).
  { intros ->. rewrite Hs in Hstart. by rewrite (Hstart w eq_refl) in Hw. }
  constructor.
  - unfold slice. rewrite Hst, Hs.
    replace (pos + length before - pos) with (length before) by lia.
    rewrite take_app_length. split; [done|split].
    + intros c Hc. apply Hstart. rewrite Hs. by destruct before.
    + intros c Hc. apply punctuation_not_space.
      rewrite <-head_reverse in Hc. destruct (reverse before) eqn:Hr.
      * apply (f_equal reverse) in Hr. rewrite reverse_involutive in Hr. done.
      * simpl in *. by simplify_eq.
  - apply IH. rewrite Hen.
    replace (pos + length before + length (w :: ws')) with
      (pos + (length before + length (w :: ws'))) by lia.
    rewrite <-drop_drop, Hs, (assoc_L (++)), <-length_app, drop_app_length.
    assert (Hrestne : rest ≠ []).
    { intros ->. rewrite app_nil_r in Hs.
      destruct (last (w :: ws')) as [l|] eqn:Hlast; [|by apply last_None in Hlast].
      assert (isspace l = true).
      { rewrite Forall_forall in Hws. apply Hws. by apply last_Some_elem_of. }
      assert (isspace l = false).
      { apply Hend. by rewrite Hs, last_app, Hlast. }
      congruence. }
    split; [done|split; [done|]].
    intros c Hc. apply Hend. rewrite Hs, !last_app, Hc. done.
Qed.

(** ** Literal words under [re.IGNORECASE] *)

Lemma rmatch_lit_i {A} (w : pystr) pre suf caps (k : @cont A) :
  rmatch (cat_all (Chr ∘ is_char_i <$> w)) pre suf caps k =
  if startswith (lower w) (lower suf)
  then k (reverse (take (length w) suf) ++ pre) (drop (length w) suf) caps
  else None.
Proof.
  revert pre suf. induction w as [|c w IH]; intros pre suf; [done|].
  destruct suf as [|x suf]; [done|].
  cbn [cat_all fmap list_fmap foldr rmatch compose lower startswith length take drop].
  unfold is_char_i at 1.
  destruct (decide (lower_char x = lower_char c)) as [Heq|Hne].
  - rewrite bool_decide_true, bool_decide_true by done. cbn [andb].
    change (foldr Cat Eps (Chr ∘ is_char_i <$> w)) with (cat_all (Chr ∘ is_char_i <$> w)).
    rewrite IH. unfold lower. rewrite reverse_cons, <-(assoc_L (++)). done.
  - rewrite bool_decide_false, bool_decide_false by done. done.
Qed.

(** Searching for a word while ignoring case is the substring test on the
    lowered texts. *)
Lemma search_lit_i w s pre suf :
  is_Some (search_from (lit_i w) s pre suf) ↔ contains (lower (py w)) (lower suf) = true.
Proof.
  assert (Hhere : ∀ pre suf, is_Some (match_here (lit_i w) s pre suf) ↔
            startswith (lower (py w)) (lower suf) = true).
  { intros pre' suf'. unfold match_here, lit_i. rewrite rmatch_lit_i.
    destruct (startswith _ _); split; (done || by intros []). }
  revert pre. induction suf as [|c suf IH]; intros pre.
  - cbn [search_from lower fmap list_fmap contains]. rewrite orb_false_r, <-(Hhere pre []).
    by destruct (match_here _ _ _ _).
  - cbn [search_from lower fmap list_fmap contains]. rewrite orb_true_iff.
    change (lower_char c :: list_fmap _ _ lower_char suf) with (lower (c :: suf)).
    change (list_fmap _ _ lower_char suf) with (lower suf).
    rewrite <-(Hhere pre (c :: suf)), <-(IH (c :: pre)).
    destruct (match_here _ _ _ _); [by split; [left|]|].
    split; [by right|]. intros [[]%is_Some_None|]; done.
Qed.

Lemma str_contains_bachelor_spec s :
  str_contains_bachelor s = contains (py "bachelor") (lower s).
Proof.
  unfold str_contains_bachelor, re_test, re_search.
  pose proof (search_lit_i "Bachelor" s [] s) as H.
  change (lower (py "Bachelor")) with (py "bachelor") in H.
  destruct (contains (py "bachelor") (lower s)).
  - apply bool_decide_eq_true. by apply H.
  - apply bool_decide_eq_false. intros Hs. by apply H in Hs.
Qed.

(** ** The deadline pattern *)

Lemma startswith_lower_take w suf :
  startswith (lower w) (lower suf) = true → lower (take (length w) suf) = lower w.
Proof.
  intros [rest H]%startswith_spec. unfold lower in *.
  rewrite fmap_take, H, <-(length_fmap lower_char w). apply take_app_length.
Qed.

(** What a search found is a match at some position with no match before
    it. *)
Lemma search_from_leftmost r s pre suf m :
  search_from r s pre suf = Some m →
  ∃ before rest, suf = before ++ rest ∧
    match_here r s (reverse before ++ pre) rest = Some m ∧
    ∀ b1 b2, before = b1 ++ b2 → b2 ≠ [] →
      match_here r s (reverse b1 ++ pre) (b2 ++ rest) = None.
Proof.
  revert pre. induction suf as [|c suf IH]; intros pre H; cbn [search_from] in H.
  - destruct (match_here r s pre []) eqn:Hm; [|done]. simplify_eq.
    exists [], []. repeat split; [done|]. by intros [|] [|].
  - destruct (match_here r s pre (c :: suf)) eqn:Hm.
    + simplify_eq. exists [], (c :: suf). repeat split; [done|]. by intros [|] [|].
    + apply IH in H as (before & rest & -> & Hhere & Hleft).
      exists (c :: before), rest. rewrite reverse_cons, <-(assoc_L (++)).
      repeat split; [done|]. intros [|c' b1] b2 Hb Hne.
      * simpl in Hb. subst b2. done.
      * injection Hb as -> ->. rewrite reverse_cons, <-(assoc_L (++)). by apply Hleft.
Qed.

Lemma rmatch_Cat {A} a b pre suf caps (k : @cont A) :
  rmatch (Cat a b) pre suf caps k =
  rmatch a pre suf caps (λ pre' suf' caps', rmatch b pre' suf' caps' k).
Proof. done. Qed.

(** A match of the label group: one of the three words, whatever the case. *)
Lemma rmatch_labels {A} pre suf caps (k : @cont A) x :
  rmatch (Group 1 (Alt (lit_i "last date") (Alt (lit_i "deadline") (lit_i "apply by"))))
    pre suf caps k = Some x →
  ∃ w label rest, w ∈ deadline_labels ∧ suf = label ++ rest ∧ lower label = py w ∧
    k (reverse label ++ pre) rest
      ((1, (length pre, length (reverse label ++ pre))) :: caps) = Some x.
Proof.
  cbn [rmatch]. unfold lit_i. rewrite !rmatch_lit_i. intros H.
  assert (Hone : ∀ w : string, w ∈ deadline_labels →
    (if startswith (lower (py w)) (lower suf)
     then k (reverse (take (length (py w)) suf) ++ pre) (drop (length (py w)) suf)
            ((1, (length pre, length (reverse (take (length (py w)) suf) ++ pre))) :: caps)
     else None) = Some x →
    lower (py w) = py w →
    ∃ w label rest, w ∈ deadline_labels ∧ suf = label ++ rest ∧ lower label = py w ∧
      k (reverse label ++ pre) rest
        ((1, (length pre, length (reverse label ++ pre))) :: caps) = Some x).
  { intros w Hw Hk Hlow. revert Hk.
    destruct (startswith (lower (py w)) (lower suf)) eqn:Hs; [intros Hk|done].
    exists w, (take (length (py w)) suf), (drop (length (py w)) suf).
    repeat split; [done | by rewrite take_drop | | done].
    by rewrite (startswith_lower_take _ _ Hs). }
  apply or_else_Some in H as [H|[_ H]]; [|apply or_else_Some in H as [H|[_ H]]].
  - apply (Hone "last date"); [set_solver | done | done].
  - apply (Hone "deadline"); [set_solver | done | done].
  - apply (Hone "apply by"); [set_solver | done | done].
Qed.

(** A match of the deadline pattern at a position: label, gap, colon and
    the captured text up to the end of the line. *)
Lemma match_deadline s pre suf m :
  match_here deadline_pattern s pre suf = Some m →
  ∃ label gap colon text rest,
    suf = label ++ gap ++ colon ++ text ++ rest ∧
    (∃ w, w ∈ deadline_labels ∧ lower label = py w) ∧
    Forall (λ c, isspace c = true) gap ∧
    (colon = [] ∨ colon = py ":") ∧
    text ≠ [] ∧ Forall (λ c, c ≠ LF ∧ c ≠ CR) text ∧
    (∀ c, head rest = Some c → c = LF ∨ c = CR) ∧
    m_string m = s ∧ m_start m = length pre ∧
    group_span 2 (m_groups m) =
      Some (length pre + length label + length gap + length colon,
            length pre + length label + length gap + length colon + length text).
Proof.
  unfold match_here, deadline_pattern, cat_all, star, opt, plus.
  cbn [foldr]. rewrite rmatch_Cat. intros H.
  apply rmatch_labels in H as (w & label & r1 & Hw & -> & Hlabel & H).
  rewrite rmatch_Cat in H. apply rep_sound in H as (gap & r2 & -> & Hgap & _ & _ & H).
  rewrite rmatch_Cat in H. apply rep_sound in H as (colon & r3 & -> & Hcolon & _ & Hhi & H).
  cbn [rmatch] in H.
  apply rep_greedy in H as (text & rest & -> & Htext & Hlen & Hrest & H); [|by eauto].
  injection H as <-.
  exists label, gap, colon, text, rest. cbn [m_string m_start m_groups group_span].
  rewrite bool_decide_true by done.
  rewrite !length_app, !length_reverse.
  assert (Hnl : ∀ c, none_of [LF; CR] c = true ↔ c ≠ LF ∧ c ≠ CR).
  { intros c. unfold none_of. rewrite negb_true_iff, bool_decide_eq_false.
    rewrite !elem_of_cons, elem_of_nil. tauto. }
  repeat split.
  - by eauto.
  - done.
  - specialize (Hhi 1 eq_refl). destruct colon as [|c [|c' colon]]; [by left| |simpl in Hhi; lia].
    right. apply Forall_cons in Hcolon as [Hc%bool_decide_eq_true _]. by subst.
  - intros ->. simpl in Hlen. lia.
  - eapply Forall_impl; [exact Htext|]. intros c Hc. by apply Hnl.
  - intros c Hc. specialize (Hrest c Hc). unfold none_of in Hrest.
    apply negb_false_iff, bool_decide_eq_true in Hrest.
    rewrite !elem_of_cons, elem_of_nil in Hrest. tauto.
  - f_equal. f_equal; lia.
Qed.

(** The first match of the deadline pattern in a text: its capture follows a
    label on the label's line, and the pattern matches nowhere before. *)
Lemma search_deadline s m :
  re_search deadline_pattern s = Some m →
  follows_label s (group m 2) (m_start m) ∧
  ∀ i, i < m_start m →
    match_here deadline_pattern s (reverse (take i s)) (drop i s) = None.
Proof.
  unfold re_search. intros H.
  apply search_from_leftmost in H as (before & rest & Hs & Hhere & Hleft).
  rewrite app_nil_r in Hhere.
  pose proof Hhere as Hm.
  apply match_deadline in Hm
    as (label & gap & colon & text & rest' & -> & Hlabel & Hgap & Hcolon & Hne & Htext &
        Hrest & Hstr & Hst & Hsp).
  rewrite length_reverse in Hst, Hsp.
  assert (Hg : group m 2 = text).
  { unfold group. rewrite Hsp, Hstr, Hs. cbn [fst snd]. unfold slice.
    replace (length before + length label + length gap + length colon + length text
             - (length before + length label + length gap + length colon))
      with (length text) by lia.
    replace (before ++ label ++ gap ++ colon ++ text ++ rest')
      with ((before ++ label ++ gap ++ colon) ++ text ++ rest')
      by (by rewrite <-!(assoc_L (++))).
    rewrite drop_app_length' by (rewrite !length_app; lia).
    apply take_app_length. }
  split.
  - rewrite Hg. exists before, label, gap, colon, rest'.
    repeat split; done.
  - intros i Hi. rewrite Hst in Hi.
    specialize (Hleft (take i before) (drop i before)).
    rewrite app_nil_r in Hleft.
    assert (take i s = take i before) as -> by (rewrite Hs; apply take_app_le; lia).
    assert (drop i s = drop i before ++ label ++ gap ++ colon ++ text ++ rest') as ->
      by (rewrite Hs; apply drop_app_le; lia).
    apply Hleft; [by rewrite take_drop|].
    intros Hd. apply (f_equal length) in Hd. rewrite length_drop in Hd. simpl in Hd. lia.
Qed.

(** ** Text taken from a page *)

Lemma stripped_strings_solid n : Forall solid (stripped_strings n).
Proof.
  unfold stripped_strings. apply Forall_forall. intros e.
  rewrite list_elem_of_filter, list_elem_of_fmap. intros [Hne (s & -> & _)].
  split; [done | apply strip_clean].
Qed.

Lemma extract_text_solid el : extract_text el = [] ∨ solid (extract_text el).
Proof.
  destruct el as [n|]; [|by left]. simpl.
  destruct (stripped_strings n) eqn:Hs; [by left|]. right.
  rewrite <-Hs. apply join_solid; [by rewrite Hs | apply stripped_strings_solid].
Qed.

(** The full content of a page never starts or ends with white space. *)
Lemma full_content_solid doc : full_content_of doc = [] ∨ solid (full_content_of doc).
Proof.
  unfold full_content_of. destruct (extract_text_solid (or_tag (select_one (has_name "article") doc)
    (or_tag (select_one (has_id "content") doc) (select_one (has_name "body") doc))))
    as [->|[Hne Hc]]; [by left|right].
  split; [|by apply replace_nbsp_clean].
  unfold replace_char. by destruct (extract_text _).
Qed.

Lemma split_from_nonempty fuel r s pos : split_from fuel r s pos ≠ [].
Proof. destruct fuel; simpl; [done|]. by destruct (search_from _ _ _ _). Qed.

(** The units of a page's content rejoin to a text with clean ends, so the
    final [strip] of the summary changes nothing. *)
Lemma summary_units_clean doc n :
  clean (join (py " ") (take n (re_split sentence_sep (full_content_of doc)))).
Proof.
  destruct (full_content_solid doc) as [->|Hsolid].
  { change (re_split sentence_sep []) with [[] : pystr].
    destruct n as [|n]; [|simpl; rewrite take_nil]; by split; intros c. }
  destruct n as [|n]; [by split; intros c|].
  apply (proj2 (A := join (py " ") (take (S n)
    (re_split sentence_sep (full_content_of doc))) ≠ [])), join_solid.
  - unfold re_split. pose proof (split_from_nonempty
      (length (full_content_of doc)) sentence_sep (full_content_of doc) 0).
    by destruct (split_from _ _ _ _).
  - apply Forall_take, split_solid. by rewrite drop_0.
Qed.

(** ** Sorting a set of strings *)

Global Instance pystr_le_total : Total pystr_le.
Proof. intros a b. unfold pystr_le. apply (total String.le). Qed.

Global Instance pystr_le_trans : Transitive pystr_le.
Proof. intros a b c. unfold pystr_le. apply (transitivity (R := String.le)). Qed.

(** [sorted(set(l))] is in increasing order, without duplicates, and has the
    elements of [l]. *)
Lemma sorted_set_spec l :
  Sorted pystr_le (sorted_set l) ∧ NoDup (sorted_set l) ∧
  ∀ v, v ∈ sorted_set l ↔ v ∈ l.
Proof.
  unfold sorted_set. split; [|split].
  - apply Sorted_merge_sort. apply _.
  - rewrite merge_sort_Permutation. apply NoDup_elements.
  - intros v. rewrite merge_sort_Permutation, elem_of_elements, elem_of_list_to_set. done.
Qed.

(** ** Sentence units *)

(** Punctuation with white space after it is a sentence boundary. *)
Lemma match_sentence_sep_here s p pre w suf :
  one_of ".!?" p = true → isspace w = true →
  is_Some (match_here sentence_sep s (p :: pre) (w :: suf)).
Proof.
  intros Hp Hw. unfold match_here, sentence_sep, plus. simpl. rewrite Hp, Hw.
  match goal with
  | |- is_Some (or_else ?x _) => assert (is_Some x) as [y ->] by (apply rep_total; eauto)
  end.
  simpl. eauto.
Qed.

(** Where the search finds nothing there is no boundary. *)
Lemma search_sentence_sep_None s pre suf :
  search_from sentence_sep s pre suf = None → boundary_free suf.
Proof.
  revert pre. induction suf as [|c suf IH]; intros pre H a p w b Hs Hp.
  { by destruct a. }
  cbn [search_from] in H.
  destruct (match_here sentence_sep s pre (c :: suf)) eqn:Hm; [done|].
  destruct a as [|c' a]; simpl in Hs; injection Hs as -> ->.
  - destruct (isspace w) eqn:Hw; [|done].
    destruct (match_sentence_sep_here s p pre w b Hp Hw) as [m Hm'].
    cbn [search_from] in H. by rewrite Hm' in H.
  - by apply (IH (c' :: pre) H a p w b).
Qed.

(** The boundary the search finds is the first one: the text before it has
    none inside. *)
Lemma search_sentence_sep_first s pre suf m :
  search_from sentence_sep s pre suf = Some m →
  ∃ before ws rest, suf = before ++ ws ++ rest ∧
    ws ≠ [] ∧ Forall (λ c, isspace c = true) ws ∧ starts_clean rest ∧
    (∃ p, head (reverse before ++ pre) = Some p ∧ one_of ".!?" p = true) ∧
    m_start m = length pre + length before ∧
    m_end m = length pre + length before + length ws ∧
    boundary_free before.
Proof.
  intros (before & rest' & -> & Hhere & Hleft)%search_from_leftmost.
  apply match_sentence_sep in Hhere
    as (ws & rest & -> & Hne & Hws & Hrest & Hp & Hst & Hen).
  rewrite length_app, length_reverse in Hst, Hen.
  exists before, ws, rest.
  split; [done|]. split; [done|]. split; [done|]. split; [done|]. split; [done|].
  split; [lia|]. split; [lia|].
  intros a p w b Hb Hpunct. destruct (isspace w) eqn:Hw; [|done].
  assert (Hnone : match_here sentence_sep s (reverse (a ++ [p]) ++ pre)
                    ((w :: b) ++ ws ++ rest) = None).
  { apply Hleft; [|done]. by rewrite Hb, <-(assoc_L (++)). }
  rewrite reverse_app in Hnone. simpl in Hnone.
  destruct (match_sentence_sep_here s p (reverse a ++ pre) w (b ++ ws ++ rest) Hpunct Hw)
    as [m' Hm'].
  congruence.
Qed.

(** The split cuts the text into its sentence-like units, from any position
    where no boundary starts. *)
Lemma split_from_units fuel s pos :
  length s - pos ≤ fuel → pos ≤ length s →
  starts_clean (drop pos s) ∨ pos = 0 →
  sentence_units (drop pos s) (split_from fuel sentence_sep s pos).
Proof.
  revert pos. induction fuel as [|fuel IH]; intros pos Hfuel Hpos Hctx.
  { simpl. rewrite drop_ge by lia. apply units_last. by intros [|]. }
  cbn [split_from]. destruct (search_from _ _ _ _) as [m|] eqn:Hm.
  2: { apply units_last. by eapply search_sentence_sep_None. }
  apply search_sentence_sep_first in Hm
    as (before & ws & rest & Hs & Hne & Hws & Hrest & (p & Hp & Hpunct) & Hst & Hen & Hfree).
  rewrite length_reverse, length_take_le in Hst, Hen by done.
  assert (Hw : ∃ w ws', ws = w :: ws' ∧ isspace w = true).
  { destruct ws as [|w ws']; [done|]. apply Forall_cons in Hws as [? _]. eauto. }
  destruct Hw as (w & ws' & -> & Hw).
  assert (Hbefore : ∃ u, before = u ++ [p]).
  { destruct (reverse before) as [|p' r] eqn:Hr.
    - apply (f_equal reverse) in Hr. rewrite reverse_involutive in Hr. subst before.
      destruct Hctx as [Hclean| ->].
      + rewrite Hs in Hclean. by rewrite (Hclean w eq_refl) in Hw.
      + done.
    - simpl in Hp. injection Hp as ->. exists (reverse r).
      apply (f_equal reverse) in Hr. by rewrite reverse_involutive, reverse_cons in Hr. }
  destruct Hbefore as [u ->].
  assert (Hlen : length s - pos = length (u ++ [p]) + length (w :: ws') + length rest).
  { rewrite <-length_drop, Hs, !length_app. lia. }
  assert (Hslice : slice s pos (m_start m) = u ++ [p]).
  { unfold slice. rewrite Hst, Hs.
    replace (pos + length (u ++ [p]) - pos) with (length (u ++ [p])) by lia.
    apply take_app_length. }
  assert (Hdrop : drop (m_end m) s = rest).
  { rewrite Hen.
    replace (pos + length (u ++ [p]) + length (w :: ws'))
      with (pos + (length (u ++ [p]) + length (w :: ws'))) by lia.
    by rewrite <-drop_drop, Hs, (assoc_L (++)), <-length_app, drop_app_length. }
  rewrite Hslice, Hs. apply units_cons; [done..|].
  rewrite length_app in Hlen. simpl in Hlen.
  rewrite length_app in Hen. simpl in Hen.
  rewrite <-Hdrop. apply IH; [lia | lia | left; by rewrite Hdrop].
Qed.

Lemma re_split_units s : sentence_units s (re_split sentence_sep s).
Proof. apply (split_from_units (length s) s 0); [lia | lia | by right]. Qed.

(** A run of white space up to the next character that is none is fixed by
    the text. *)
Lemma space_run_unique ws1 rest1 ws2 rest2 :
  Forall (λ c, isspace c = true) ws1 → Forall (λ c, isspace c = true) ws2 →
  starts_clean rest1 → starts_clean rest2 →
  ws1 ++ rest1 = ws2 ++ rest2 → ws1 = ws2 ∧ rest1 = rest2.
Proof.
  intros H1. revert ws2. induction H1 as [|w1 ws1 Hw1 _ IH]; intros ws2 H2 Hr1 Hr2 Heq.
  - destruct H2 as [|w2 ws2 Hw2 _]; [done|]. simpl in Heq. subst rest1.
    by rewrite (Hr1 w2 eq_refl) in Hw2.
  - destruct H2 as [|w2 ws2 Hw2 H2].
    + simpl in Heq. subst rest2. by rewrite (Hr2 w1 eq_refl) in Hw1.
    + injection Heq as -> Heq. by destruct (IH ws2 H2 Hr1 Hr2 Heq) as [-> ->].
Qed.

(** A unit that ends at a boundary is fixed by the text. *)
Lemma first_unit_unique u1 p1 w1 t1 u2 p2 w2 t2 :
  boundary_free (u1 ++ [p1]) → boundary_free (u2 ++ [p2]) →
  one_of ".!?" p1 = true → one_of ".!?" p2 = true →
  isspace w1 = true → isspace w2 = true →
  (u1 ++ [p1]) ++ w1 :: t1 = (u2 ++ [p2]) ++ w2 :: t2 →
  u1 ++ [p1] = u2 ++ [p2] ∧ w1 :: t1 = w2 :: t2.
Proof.
  intros Hf1 Hf2 Hp1 Hp2 Hw1 Hw2 Heq.
  apply app_eq_inv in Heq as [(k & HU & HT)|(k & HU & HT)].
  - destruct k as [|c k]; [by rewrite app_nil_r in HU|].
    injection HT as <- _.
    rewrite (Hf1 u2 p2 w2 k) in Hw2; [done| |done].
    by rewrite HU, <-(assoc_L (++)).
  - destruct k as [|c k]; [by rewrite app_nil_r in HU|].
    injection HT as <- _.
    rewrite (Hf2 u1 p1 w1 k) in Hw1; [done| |done].
    by rewrite HU, <-(assoc_L (++)).
Qed.

(** A text has one list of sentence-like units. *)
Lemma sentence_units_unique s units1 units2 :
  sentence_units s units1 → sentence_units s units2 → units1 = units2.
Proof.
  intros H1. revert units2.
  induction H1 as [u Hf|u p ws rest units Hf Hp Hne Hws Hrest H1 IH]; intros units2 H2.
  - inversion H2 as [u' Hf' Hu|u' p' ws' rest' units' Hf' Hp' Hne' Hws' Hrest' H2' Hu];
      [done|]. subst.
    destruct ws' as [|w ws']; [done|]. apply Forall_cons in Hws' as [Hw _].
    rewrite (Hf u' p' w (ws' ++ rest')) in Hw; [done| |done].
    by rewrite <-(assoc_L (++)).
  - remember ((u ++ [p]) ++ ws ++ rest) as s eqn:Hs.
    destruct H2 as [s Hf'|u' p' ws' rest' units' Hf' Hp' Hne' Hws' Hrest' H2'].
    + subst s. destruct ws as [|w ws]; [done|]. apply Forall_cons in Hws as [Hw _].
      rewrite (Hf' u p w (ws ++ rest)) in Hw; [done| |done].
      by rewrite <-(assoc_L (++)).
    + destruct ws as [|w ws]; [done|]. destruct ws' as [|w' ws']; [done|].
      pose proof Hws as [Hw _]%Forall_cons. pose proof Hws' as [Hw' _]%Forall_cons.
      destruct (first_unit_unique u' p' w' (ws' ++ rest') u p w (ws ++ rest))
        as [HU HT]; [done..|].
      destruct (space_run_unique (w' :: ws') rest' (w :: ws) rest) as [_ Hr]; [done..|].
      rewrite HU. f_equal. apply IH. by rewrite <-Hr.
Qed.

Example sentence_units_example :
  sentence_units (py "Open to all. Apply now!  Fee? None. Mail a.b@c.d")
    [py "Open to all."; py "Apply now!"; py "Fee?"; py "None."; py "Mail a.b@c.d"].
Proof. exact (re_split_units (py "Open to all. Apply now!  Fee? None. Mail a.b@c.d")). Qed.

(** * The claims *)

Lemma level_tags_spec text_lower v :
  v ∈ level_tags text_lower ↔
  ∃ name pat, (name, pat) ∈ level_vocabulary ∧ v = py name ∧ re_test pat text_lower = true.
Proof.
  unfold level_tags, level_vocabulary. split.
  - rewrite !elem_of_app. intros H.
    repeat match goal with
    | H : _ ∨ _ |- _ => destruct H as [H|H]
    | H : _ ∈ (if ?b then _ else _) |- _ => destruct b eqn:?; [apply list_elem_of_singleton in H|by apply elem_of_nil in H]
    end; subst; eexists _, _; (split; [|split; [reflexivity|eassumption]]);
      rewrite !elem_of_cons; auto 10.
  - intros (name & pat & Hin & -> & Ht).
    rewrite !elem_of_cons, elem_of_nil in Hin. rewrite !elem_of_app.
    destruct Hin as [H|[H|[H|[H|[H|[]]]]]]; simplify_eq; rewrite Ht;
      rewrite list_elem_of_singleton; auto 10.
Qed.

(** The tags of the level field, written out: the sorted vocabulary, each
    term kept when its test matches. *)
Lemma level_tags_sorted text_lower :
  sorted_set (level_tags text_lower) =
  (py ∘ fst) <$> filter (λ e, re_test e.2 text_lower = true) level_vocabulary_sorted.
Proof.
  unfold level_tags, level_vocabulary_sorted.
  rewrite !filter_cons, filter_nil. cbn [snd].
  destruct (re_test matric_pattern text_lower), (re_test inter_pattern text_lower),
    (re_test bachelor_pattern text_lower), (re_test masters_pattern text_lower),
    (re_test phd_pattern text_lower); by vm_compute.
Qed.

Section Claims.
Variable urljoin : pystr → pystr → pystr.
Variable now_isoformat : pystr.
Variable page_url : pystr.

Local Abbreviation fields := (page_fields urljoin now_isoformat page_url).

(** C4: the level field is the comma-joined list of the vocabulary terms
    whose test matches the lowered full content, in sorted order and without
    duplicates; the field is fixed by which tests match. *)
Theorem level_sorted_matching_terms (doc : soup) :
  ∃ tags, level (fields doc) = join (py ", ") tags ∧
    Sorted pystr_le tags ∧ NoDup tags ∧
    ∀ v, v ∈ tags ↔
      ∃ name pat, (name, pat) ∈ level_vocabulary ∧ v = py name ∧
        re_test pat (lower (full_content (fields doc))) = true.
Proof.
  exists (sorted_set (level_tags (lower (full_content_of doc)))).
  destruct (sorted_set_spec (level_tags (lower (full_content_of doc)))) as (Hs & Hn & Hm).
  repeat split; [done | done | |].
  - intros Hv. apply level_tags_spec, Hm, Hv.
  - intros Hv. apply Hm, level_tags_spec, Hv.
Qed.

(** C5: the type field is decided by the presence of "merit" and of "need"
    in the lowered full content: both, only the first, only the second,
    neither; the four labels are different texts. *)
Theorem type_by_merit_and_need (doc : soup) :
  type_ (fields doc) =
    match contains (py "merit") (lower (full_content (fields doc))),
          contains (py "need") (lower (full_content (fields doc))) with
    | true, true => py "Merit & Need Based"
    | true, false => py "Merit Based"
    | false, true => py "Need Based"
    | false, false => []
    end
  ∧ NoDup [py "Merit & Need Based"; py "Merit Based"; py "Need Based"; []].
Proof.
  split.
  - cbn [type_ full_content page_fields]. unfold type_of.
    by destruct (contains (py "merit") _), (contains (py "need") _).
  - apply (bool_decide_unpack _). by vm_compute.
Qed.

(** C8: the full content has one list of sentence-like units - it is cut at
    every [.], [!] or [?] followed by white space - and the summary is the
    first three of them joined by single spaces, or all of them when there are
    fewer than three. *)
Theorem summary_first_three_units (doc : soup) :
  ∃ units,
    sentence_units (full_content (fields doc)) units ∧
    (∀ units', sentence_units (full_content (fields doc)) units' → units' = units) ∧
    summary (fields doc) =
      match units with
      | u1 :: u2 :: u3 :: _ => u1 ++ py " " ++ u2 ++ py " " ++ u3
      | units => join (py " ") units
      end.
Proof.
  cbn [summary full_content page_fields]. unfold summary_of.
  exists (re_split sentence_sep (full_content_of doc)).
  split; [apply re_split_units|]. split.
  - intros units' H. apply (sentence_units_unique _ _ _ H), re_split_units.
  - rewrite strip_id by apply summary_units_clean.
    by destruct (re_split _ _) as [|u1 [|u2 [|u3 rest]]].
Qed.
End Claims.

(** ** Title *)

(** C6, as stated, fails: on a page with an empty [h1] the title is empty
    although the document title has text, which the claim gives as title. *)
Lemma title_not_first_nonempty :
  title (page_fields (λ _ href, href) [] [] empty_heading_page) = [] ∧
  title_first_nonempty empty_heading_page = py "Need Based Scholarship" ∧
  title (page_fields (λ _ href, href) [] [] empty_heading_page)
    ≠ title_first_nonempty empty_heading_page.
Proof. by vm_compute. Qed.

(** C6, amended: the title is the text of the first element that exists among
    the [h1], the post-title element and the document title; it is empty when
    that element has no text or none of them exists. *)
Theorem title_first_existing
    (urljoin : pystr → pystr → pystr) (now_isoformat page_url : pystr) (doc : soup) :
  title (page_fields urljoin now_isoformat page_url doc) =
    extract_text (first_existing [select_one (has_name "h1") doc;
                                   select_one (has_class "post-title") doc;
                                   select_one (has_name "title") doc]).
Proof.
  cbn [title page_fields]. unfold title_of, first_existing.
  by destruct (select_one (has_name "h1") doc),
    (select_one (has_class "post-title") doc), (select_one (has_name "title") doc).
Qed.

(** ** Deadline *)

(** C7, as stated, fails: on this page the search matches, its capture is
    white space, and the deadline is not the trimmed capture (the empty
    text) but the heading-based text. *)
Lemma deadline_not_as_claimed :
  (λ m, group m 2) <$> re_search deadline_pattern (full_content_of blank_label_page)
    = Some (py "  ") ∧
  deadline_as_claimed blank_label_page = [] ∧
  deadline (page_fields (λ _ href, href) [] [] blank_label_page) = py "31 May 2024" ∧
  deadline (page_fields (λ _ href, href) [] [] blank_label_page)
    ≠ deadline_as_claimed blank_label_page.
Proof. by vm_compute. Qed.

(** C7, amended: the deadline is the trimmed text captured after the first
    occurrence of a label word (white space and a colon may come between
    the label and the text, which runs to the end of its line) when that
    trimmed text is not empty; when the search finds no match or the
    captured text trims to nothing, it is the heading-based text. *)
Theorem deadline_capture_or_heading
    (urljoin : pystr → pystr → pystr) (now_isoformat page_url : pystr) (doc : soup) :
  match re_search deadline_pattern
          (full_content (page_fields urljoin now_isoformat page_url doc)) with
  | Some m =>
      first_label_capture (full_content (page_fields urljoin now_isoformat page_url doc)) m ∧
      deadline (page_fields urljoin now_isoformat page_url doc) =
        if bool_decide (strip (group m 2) = [])
        then guess_field_by_heading doc deadline_headings
        else strip (group m 2)
  | None =>
      deadline (page_fields urljoin now_isoformat page_url doc) =
        guess_field_by_heading doc deadline_headings
  end.
Proof.
  cbn [deadline full_content page_fields]. unfold deadline_of.
  destruct (re_search deadline_pattern (full_content_of doc)) as [m|] eqn:Hm; [|done].
  split; [by apply search_deadline|].
  by destruct (strip (group m 2)).
Qed.

(** C10: when the search matches and its capture trims to the empty string,
    the deadline is the heading-based text. *)
Theorem deadline_blank_capture_falls_back
    (urljoin : pystr → pystr → pystr) (now_isoformat page_url : pystr) (doc : soup)
    (m : Match) :
  re_search deadline_pattern
    (full_content (page_fields urljoin now_isoformat page_url doc)) = Some m →
  strip (group m 2) = [] →
  deadline (page_fields urljoin now_isoformat page_url doc) =
    guess_field_by_heading doc deadline_headings.
Proof.
  cbn [deadline full_content page_fields]. unfold deadline_of.
  intros -> ->. done.
Qed.

Lemma deadline_blank_capture_falls_back_witness :
  re_search deadline_pattern
    (full_content (page_fields (λ _ href, href) [] [] blank_label_page))
    = Some blank_label_match ∧
  strip (group blank_label_match 2) = [] ∧
  deadline (page_fields (λ _ href, href) [] [] blank_label_page) = py "31 May 2024".
Proof.
  split; [vm_compute; reflexivity|]. split; [vm_compute; reflexivity|].
  rewrite (deadline_blank_capture_falls_back (λ _ href, href) [] [] blank_label_page
             blank_label_match); vm_compute; reflexivity.
Defined.

(** ** Cleaning the deadline *)

Section DateClaims.
Variable to_datetime : pystr → outcome Timestamp.
Variable parser_parse : pystr → outcome Date.

(** When the numeric pattern is found and [to_datetime] returns [NaT] for
    the matched text, [extract_date] returns [NaT] at once: the fuzzy parse
    is not called. *)
Lemma extract_date_coerced_NaT (text : pystr) (m : Match) :
  ¬ refused (Str text) →
  re_search date_pattern text = Some m →
  to_datetime (group m 0) = Returned NaT →
  extract_date to_datetime parser_parse (Str text)
    = (CNaT, [NumericSearch text; ToDatetime (group m 0)]).
Proof.
  intros Href Hm Hnat. unfold extract_date.
  rewrite bool_decide_false.
  2: { intros Hs. apply Href. left. by apply strip_nil_iff. }
  destruct (existsb _ _) eqn:Hex.
  - exfalso. apply Href. right. apply existsb_exists in Hex as (marker & Hin & Hp).
    apply startswith_spec in Hp as [rest Hp]. exists marker, rest.
    split; [by apply list_elem_of_In|done].
  - by rewrite Hm, Hnat.
Qed.

(** Only a numeric parse that raises reaches the fuzzy parse after a match of
    the numeric pattern; its result is then a date or [None]. *)
Lemma extract_date_raise_falls_through (text : pystr) (m : Match) :
  ¬ refused (Str text) →
  re_search date_pattern text = Some m →
  to_datetime (group m 0) = Raised →
  extract_date to_datetime parser_parse (Str text)
    = (match parser_parse text with Returned d => CDate d | Raised => CNone end,
       [NumericSearch text; ToDatetime (group m 0); ParserParse text]).
Proof.
  intros Href Hm Hraise. unfold extract_date.
  rewrite bool_decide_false.
  2: { intros Hs. apply Href. left. by apply strip_nil_iff. }
  destruct (existsb _ _) eqn:Hex.
  - exfalso. apply Href. right. apply existsb_exists in Hex as (marker & Hin & Hp).
    apply startswith_spec in Hp as [rest Hp]. exists marker, rest.
    split; [by apply list_elem_of_In|done].
  - rewrite Hm, Hraise. unfold month_name_formats. by destruct (parser_parse text).
Qed.

(** C3: an input that is not a string, is empty or only white space, or
    starts (stripped, ignoring case) with "n.a", "na" or "n/a" gives [None],
    and no parsing step is taken: no search for the numeric pattern, no
    numeric parse, no fuzzy parse. *)
Theorem extract_date_refused (text : pyobj) :
  refused text →
  extract_date to_datetime parser_parse text = (CNone, []).
Proof.
  destruct text as [s|]; [|done]. intros [Hblank|(marker & rest & Hin & Hs)]; unfold extract_date.
  - rewrite bool_decide_true; [done|]. by apply strip_nil_iff.
  - case_bool_decide; [done|].
    assert (existsb (λ p, startswith (py p) (lower (strip s))) ["n.a"; "na"; "n/a"] = true)
      as ->; [|done].
    apply existsb_exists. exists marker. split; [by apply list_elem_of_In|].
    apply startswith_spec. by exists rest.
Qed.

(** C9: the Bachelor rows are the collected records whose level contains
    "bachelor" when case is ignored, in the order collected, each with
    [extract_date] of its deadline as [clean_deadline]; when nothing was
    collected nothing is written. *)
Theorem bachelor_rows_exact (results : list ScholarshipRecord) :
  match main_bachelors to_datetime parser_parse results with
  | Some rows =>
      row_record <$> rows =
        filter (λ r, contains (py "bachelor") (lower (level r)) = true) results ∧
      Forall (λ row, clean_deadline row =
                (extract_date to_datetime parser_parse (Str (deadline (row_record row)))).1)
             rows
  | None => results = []
  end.
Proof.
  assert (Hrows : ∀ rs,
    row_record <$> bachelors_df to_datetime parser_parse rs =
      filter (λ r, contains (py "bachelor") (lower (level r)) = true) rs ∧
    Forall (λ row, clean_deadline row =
              (extract_date to_datetime parser_parse (Str (deadline (row_record row)))).1)
           (bachelors_df to_datetime parser_parse rs)).
  { intros rs. unfold bachelors_df, data_frame.
    induction rs as [|r rs [IH1 IH2]]; [by split|].
    rewrite fmap_cons, !filter_cons. cbn [row_record].
    rewrite str_contains_bachelor_spec.
    destruct (decide (contains (py "bachelor") (lower (level r)) = true)).
    - split; [by rewrite fmap_cons, IH1 | by constructor].
    - done. }
  destruct results as [|r results]; [done|]. apply Hrows.
Qed.
End DateClaims.

Lemma extract_date_refused_witness :
  refused (Str (py "N/A")) ∧
  extract_date (pd_to_datetime 2025)
    (λ _, Returned {| year := 2025; month := 1; day := 1 |}) (Str (py "N/A")) = (CNone, []).
Proof.
  split.
  - right. exists "n/a", []. split; [|by vm_compute]. set_solver.
  - apply (extract_date_refused (pd_to_datetime 2025)
             (λ _, Returned {| year := 2025; month := 1; day := 1 |}) (Str (py "N/A"))).
    right. exists "n/a", []. split; [|by vm_compute]. set_solver.
Defined.

(** C1: on "99-99-2024" the numeric pattern matches the whole text, the
    text is no calendar date and [to_datetime] gives [NaT] for it; the result
    of [extract_date] is then [NaT], neither a date nor [None], and the fuzzy
    parse of the input is never called. *)
Theorem extract_date_unparsed_numeric (this_year : Z) (parser_parse : pystr → outcome Date) :
  (λ m, group m 0) <$> re_search date_pattern (py "99-99-2024") = Some (py "99-99-2024") ∧
  pd_to_datetime this_year (py "99-99-2024") = Returned NaT ∧
  extract_date (pd_to_datetime this_year) parser_parse (Str (py "99-99-2024"))
    = (CNaT, [NumericSearch (py "99-99-2024"); ToDatetime (py "99-99-2024")]).
Proof. by vm_compute. Qed.

(** C2: "15-02-2024" is read day first and "2024-02-15" year first; both give
    the date 2024-02-15. *)
Theorem extract_date_numeric_examples (this_year : Z) (parser_parse : pystr → outcome Date) :
  (extract_date (pd_to_datetime this_year) parser_parse (Str (py "15-02-2024"))).1
    = CDate {| year := 2024; month := 2; day := 15 |} ∧
  (extract_date (pd_to_datetime this_year) parser_parse (Str (py "2024-02-15"))).1
    = CDate {| year := 2024; month := 2; day := 15 |}.
Proof. by vm_compute. Qed.

(** ** The sample page, end to end *)

Example sample_page_fields :
  let r := page_fields (λ base href, base ++ href) (py "2024-01-01T00:00:00+00:00")
             (py "https://www.eduvision.edu.pk") sample_page in
  title r = py "HEC Need Based Scholarship" ∧
  level r = py "Bachelor" ∧
  type_ r = py "Merit & Need Based" ∧
  eligibility r = py "Enrolled in BS. Pakistani nationals only" ∧
  deadline r = py "15-02-2024 Eligibility Criteria Enrolled in BS. Pakistani nationals only Area Punjab Application Form" ∧
  area r = py "Punjab Application Form" ∧
  application_link r = py "https://www.eduvision.edu.pk/apply/hec" ∧
  summary r = py "HEC Need Based Scholarship Merit and need based scholarship for deserving students. Bachelor of Science students are eligible! Apply online.".
Proof. by vm_compute. Qed.

Example sample_page_bachelor_row (this_year : Z) (parser_parse : pystr → outcome Date) :
  let r := page_fields (λ base href, base ++ href) (py "2024-01-01T00:00:00+00:00")
             (py "https://www.eduvision.edu.pk") sample_page in
  main_bachelors (pd_to_datetime this_year) parser_parse [r] =
    Some [{| row_record := r;
             clean_deadline := CDate {| year := 2024; month := 2; day := 15 |} |}].
Proof. by vm_compute. Qed.

Example level_all_terms :
  join (py ", ") (sorted_set (level_tags (py "phd, ms, matric, inter and bachelor; matric again")))
  = py "Bachelor, Intermediate, Masters/MPhil, Matric, PhD".
Proof. by vm_compute. Qed.

(** * Further properties of the extraction *)

(** ** Extracted text *)

Lemma join_nil_solid sep parts : Forall solid parts → join sep parts = [] → parts = [].
Proof.
  intros Hall Hj. destruct parts as [|p rest]; [done|].
  destruct (join_solid sep (p :: rest)) as [Hne _]; done.
Qed.

Lemma extract_text_strip el : strip (extract_text el) = extract_text el.
Proof. destruct (extract_text_solid el) as [->|[_ Hc]]; [done | by apply strip_id]. Qed.

(** X1: the text [extract_text] gives never starts or ends with white space,
    and it is empty exactly when there is no element or every string below
    the element is white space. *)
Theorem extract_text_trimmed (el : option node) :
  strip (extract_text el) = extract_text el ∧
  (extract_text el = [] ↔
   match el with
   | Some n => Forall (Forall (λ c, isspace c = true)) (all_strings n)
   | None => True
   end).
Proof.
  split.
  - apply extract_text_strip.
  - destruct el as [n|]; [|done]. simpl. split.
    + intros Hj. apply join_nil_solid in Hj; [|apply stripped_strings_solid].
      unfold stripped_strings in Hj. apply Forall_forall. intros s Hs.
      apply strip_nil_iff. destruct (decide (strip s = [])) as [|Hne]; [done|].
      assert (strip s ∈ filter (λ s, s ≠ []) (strip <$> all_strings n)) as Hin.
      { apply list_elem_of_filter. split; [done|]. apply list_elem_of_fmap. eauto. }
      rewrite Hj in Hin. by apply elem_of_nil in Hin.
    + intros Hall. unfold stripped_strings.
      assert (filter (λ s, s ≠ []) (strip <$> all_strings n) = []) as ->; [|done].
      induction Hall as [|s l Hs _ IH]; [done|].
      rewrite fmap_cons, filter_cons. apply strip_nil_iff in Hs. rewrite Hs.
      by rewrite decide_False by (by intros ?).
Qed.

(** ** Heading sections *)

Lemma scan_headings_clean hs keys : clean (scan_headings hs keys).
Proof.
  induction hs as [|[h sibs] hs IH]; simpl; [by split; intros c|].
  destruct (existsb _ _); [apply strip_clean | done].
Qed.

Lemma existsb_same_elements {X} (f : X → bool) (l1 l2 : list X) :
  (∀ x, x ∈ l1 ↔ x ∈ l2) → existsb f l1 = existsb f l2.
Proof.
  intros Hsame. apply eq_true_iff_eq. rewrite !existsb_exists.
  split; intros (x & Hin & Hf); exists x; (split; [|done]);
    apply list_elem_of_In; apply Hsame; by apply list_elem_of_In.
Qed.

Lemma until_heading_next s1 h' s2 :
  is_heading h' = true → until_heading (s1 ++ h' :: s2) = until_heading (s1 ++ [h']).
Proof.
  intros Hh. induction s1 as [|x s1 IH]; simpl.
  - by rewrite Hh.
  - destruct (is_heading x); [done | by rewrite IH].
Qed.

(** X2: when no heading of the page has a lowered text that contains one of
    the keys - in particular on a page without headings - the heading-based
    lookup gives the empty text. *)
Theorem guess_field_no_matching_heading (doc : soup) (heading_texts : list string) :
  Forall (λ h, is_heading h = true →
               Forall (λ key, contains (py key) (lower (get_text_strip h)) = false)
                      heading_texts)
         ((walk_all doc).*1) →
  guess_field_by_heading doc heading_texts = [].
Proof.
  unfold guess_field_by_heading. induction (walk_all doc) as [|[h sibs] hs IH]; [done|].
  rewrite fmap_cons, Forall_cons. intros [Hh Hrest]. rewrite filter_cons. cbn [fst] in *.
  destruct (decide (is_heading h = true)) as [Hhead|]; [|by apply IH].
  cbn [scan_headings].
  assert (existsb (λ key, contains key (lower (get_text_strip h))) (py <$> heading_texts)
          = false) as ->; [|by apply IH].
  apply not_true_is_false. rewrite existsb_exists. intros (key & Hin & Hc).
  apply list_elem_of_In, list_elem_of_fmap in Hin as (k & -> & Hk).
  specialize (Hh Hhead). rewrite Forall_forall in Hh. by rewrite (Hh k Hk) in Hc.
Qed.

Lemma guess_field_no_matching_heading_witness :
  Forall (λ h, is_heading h = true →
               Forall (λ key, contains (py key) (lower (get_text_strip h)) = false)
                      ["amount"; "coverage"; "stipend"; "funding"])
         ((walk_all sample_page).*1) ∧
  guess_field_by_heading sample_page ["amount"; "coverage"; "stipend"; "funding"] = [].
Proof.
  assert (H : Forall (λ h, is_heading h = true →
               Forall (λ key, contains (py key) (lower (get_text_strip h)) = false)
                      ["amount"; "coverage"; "stipend"; "funding"])
         ((walk_all sample_page).*1)).
  { apply Forall_forall. intros h Hin _. revert h Hin. apply Forall_forall.
    apply (bool_decide_unpack _). by vm_compute. }
  split; [exact H|].
  exact (guess_field_no_matching_heading sample_page
           ["amount"; "coverage"; "stipend"; "funding"] H).
Defined.

(** X3: the text of the heading-based lookup never starts or ends with white
    space. *)
Theorem guess_field_trimmed (doc : soup) (heading_texts : list string) :
  strip (guess_field_by_heading doc heading_texts) = guess_field_by_heading doc heading_texts.
Proof. apply strip_id, scan_headings_clean. Qed.

(** X4: the keys are alternatives without precedence: two key lists with the
    same keys, in whatever order and however often, give the same text. *)
Theorem guess_field_keys_unordered (doc : soup) (keys1 keys2 : list string) :
  (∀ key, key ∈ keys1 ↔ key ∈ keys2) →
  guess_field_by_heading doc keys1 = guess_field_by_heading doc keys2.
Proof.
  intros Hsame. unfold guess_field_by_heading.
  induction (filter _ (walk_all doc)) as [|[h sibs] hs IH]; [done|]. simpl.
  rewrite (existsb_same_elements _ (py <$> keys1) (py <$> keys2)), IH; [done|].
  intros x. rewrite !list_elem_of_fmap. split; intros (k & -> & Hk); exists k;
    (split; [done|]); by apply Hsame.
Qed.

Lemma guess_field_keys_unordered_witness :
  (∀ key, key ∈ ["area"; "region"; "province"] ↔ key ∈ ["province"; "area"; "region"; "area"]) ∧
  guess_field_by_heading sample_page ["area"; "region"; "province"] =
  guess_field_by_heading sample_page ["province"; "area"; "region"; "area"].
Proof.
  assert (H : ∀ key, key ∈ ["area"; "region"; "province"]
                ↔ key ∈ ["province"; "area"; "region"; "area"]).
  { intros key. rewrite !elem_of_cons, !elem_of_nil. tauto. }
  split; [exact H|].
  exact (guess_field_keys_unordered sample_page _ _ H).
Defined.

(** X5: a heading section ends at the next heading: what follows that heading
    among the siblings has no part in the text. *)
Theorem heading_section_stops_at_next_heading
    (h h' : node) (s1 s2 : list node) (hs : list (node * list node)) (keys : list pystr) :
  is_heading h' = true →
  scan_headings ((h, s1 ++ h' :: s2) :: hs) keys = scan_headings ((h, s1 ++ [h']) :: hs) keys.
Proof. intros Hh. simpl. by rewrite (until_heading_next s1 h' s2 Hh). Qed.

Lemma heading_section_stops_at_next_heading_witness :
  is_heading (Tag (py "h3") ∅ [Text (py "Area")]) = true ∧
  scan_headings
    [(Tag (py "h2") ∅ [Text (py "Eligibility")],
      [Tag (py "p") ∅ [Text (py "Enrolled in BS.")]] ++
      Tag (py "h3") ∅ [Text (py "Area")] :: [Tag (py "p") ∅ [Text (py "Punjab")]])]
    [py "eligib"] = py "Enrolled in BS.".
Proof.
  split; [by vm_compute|].
  rewrite (heading_section_stops_at_next_heading
             (Tag (py "h2") ∅ [Text (py "Eligibility")]) (Tag (py "h3") ∅ [Text (py "Area")])
             [Tag (py "p") ∅ [Text (py "Enrolled in BS.")]]
             [Tag (py "p") ∅ [Text (py "Punjab")]] [] [py "eligib"]); by vm_compute.
Defined.

(** ** The fields of a page *)

Lemma strip_Forall (P : ascii → Prop) s : Forall P s → Forall P (strip s).
Proof.
  intros H. unfold strip.
  destruct (lstrip_split s) as [w [Hs _]].
  destruct (rstrip_split (lstrip s)) as [w' [Hs' _]].
  rewrite Hs, Hs' in H. by apply Forall_app in H as [_ [H _]%Forall_app].
Qed.

Lemma deadline_of_cases doc :
  deadline_of doc = guess_field_by_heading doc deadline_headings ∨
  ∃ m, re_search deadline_pattern (full_content_of doc) = Some m ∧
       strip (group m 2) ≠ [] ∧ deadline_of doc = strip (group m 2).
Proof.
  unfold deadline_of.
  destruct (re_search deadline_pattern (full_content_of doc)) as [m|] eqn:Hm; [|by left].
  destruct (strip (group m 2)) eqn:Hs; [by left|]. right. exists m. by rewrite Hs.
Qed.

(** X6: every text field taken from the page has no white space at its start
    or end: title, offered_by, level, type, amount, eligibility, deadline, area,
    summary and full_content. *)
Theorem page_fields_trimmed
    (urljoin : pystr → pystr → pystr) (now_isoformat page_url : pystr) (doc : soup) :
  Forall (λ field, strip (field (page_fields urljoin now_isoformat page_url doc))
                   = field (page_fields urljoin now_isoformat page_url doc))
         [title; offered_by; level; type_; amount; eligibility; deadline; area;
          summary; full_content].
Proof.
  repeat apply Forall_cons_2; [..|done]; cbn [title offered_by level type_ amount
    eligibility deadline area summary full_content page_fields].
  - apply extract_text_strip.
  - apply strip_id, scan_headings_clean.
  - unfold level_of, level_tags.
    destruct (re_test matric_pattern _), (re_test inter_pattern _),
      (re_test bachelor_pattern _), (re_test masters_pattern _),
      (re_test phd_pattern _); by vm_compute.
  - unfold type_of.
    destruct (contains (py "merit") _), (contains (py "need") _); by vm_compute.
  - apply strip_id, scan_headings_clean.
  - apply strip_id, scan_headings_clean.
  - apply strip_id. unfold deadline_of.
    destruct (re_search deadline_pattern _) as [m|]; [|apply scan_headings_clean].
    destruct (strip (group m 2)) eqn:Hs; [apply scan_headings_clean|].
    rewrite <-Hs. apply strip_clean.
  - apply strip_id. unfold area_of.
    destruct (re_search area_pattern _) as [m|]; [|apply scan_headings_clean].
    destruct (strip (group m 1)) eqn:Hs; [apply scan_headings_clean|].
    rewrite <-Hs. apply strip_clean.
  - apply strip_id, strip_clean.
  - destruct (full_content_solid doc) as [->|[_ Hc]]; [done | by apply strip_id].
Qed.

(** X7: the full content holds no no-break space: each one was replaced by a
    space. *)
Theorem full_content_without_nbsp
    (urljoin : pystr → pystr → pystr) (now_isoformat page_url : pystr) (doc : soup) :
  nbsp ∉ full_content (page_fields urljoin now_isoformat page_url doc).
Proof.
  cbn [full_content page_fields]. unfold full_content_of, replace_char.
  intros (c & Hc & _)%list_elem_of_fmap. by case_bool_decide.
Qed.

(** X8: a deadline with a line break in it can only be the heading-based
    text: the text the pattern captures stops at the end of its line. *)
Theorem deadline_line_break_only_from_heading
    (urljoin : pystr → pystr → pystr) (now_isoformat page_url : pystr) (doc : soup) :
  Forall (λ c, c ≠ LF ∧ c ≠ CR) (deadline (page_fields urljoin now_isoformat page_url doc)) ∨
  deadline (page_fields urljoin now_isoformat page_url doc)
    = guess_field_by_heading doc deadline_headings.
Proof.
  cbn [deadline page_fields].
  destruct (deadline_of_cases doc) as [->|(m & Hm & _ & ->)]; [by right|left].
  apply strip_Forall.
  apply search_deadline in Hm as [(_ & _ & _ & _ & _ & _ & _ & _ & _ & _ & _ & Htext & _) _].
  done.
Qed.

(** X9: when the full content has no line break and holds a label, the
    deadline is everything after the label, up to the end of the full content:
    the deadline is then a suffix of the full content, or, without a label, the
    heading-based text. *)
Theorem deadline_runs_to_end_of_content
    (urljoin : pystr → pystr → pystr) (now_isoformat page_url : pystr) (doc : soup) :
  Forall (λ c, c ≠ LF ∧ c ≠ CR) (full_content (page_fields urljoin now_isoformat page_url doc)) →
  match re_search deadline_pattern
          (full_content (page_fields urljoin now_isoformat page_url doc)) with
  | Some m =>
      ∃ before, full_content (page_fields urljoin now_isoformat page_url doc)
                = before ++ deadline (page_fields urljoin now_isoformat page_url doc)
  | None =>
      deadline (page_fields urljoin now_isoformat page_url doc)
        = guess_field_by_heading doc deadline_headings
  end.
Proof.
  cbn [deadline full_content page_fields]. intros Hline. unfold deadline_of.
  destruct (re_search deadline_pattern (full_content_of doc)) as [m|] eqn:Hm; [|done].
  apply search_deadline in Hm
    as [(before & label & gap & colon & rest & Hc & _ & _ & _ & _ & Hne & _ & Hrest) _].
  assert (rest = []) as ->.
  { destruct rest as [|c rest]; [done|]. exfalso.
    rewrite Hc, !Forall_app, Forall_cons in Hline.
    destruct Hline as (_ & _ & _ & _ & _ & [[HLF HCR] _]).
    by destruct (Hrest c eq_refl). }
  rewrite app_nil_r in Hc.
  destruct (full_content_solid doc) as [Hnil|[_ [_ Hend]]].
  { rewrite Hnil in Hc. by destruct before, label, gap, colon, (group m 2). }
  destruct (lstrip_split (group m 2)) as [w [Hw Hws]].
  assert (Hlne : lstrip (group m 2) ≠ []).
  { intros Hl. rewrite Hl, app_nil_r in Hw.
    destruct (last (group m 2)) as [l|] eqn:Hlast; [|by apply last_None in Hlast].
    assert (isspace l = true).
    { rewrite Hw in Hlast. rewrite Forall_forall in Hws.
      by apply Hws, last_Some_elem_of. }
    assert (isspace l = false).
    { apply Hend. rewrite Hc, !last_app, Hlast. done. }
    congruence. }
  assert (Hs : strip (group m 2) = lstrip (group m 2)).
  { unfold strip. apply rstrip_id. intros c Hlast. apply Hend.
    rewrite Hc, Hw, !last_app, Hlast. done. }
  rewrite Hs. destruct (lstrip (group m 2)) as [|c l] eqn:Hl; [done|].
  exists (before ++ label ++ gap ++ colon ++ w).
  rewrite Hc. rewrite Hw at 1. by rewrite <-!(assoc_L (++)).
Qed.

Lemma deadline_runs_to_end_of_content_witness :
  Forall (λ c, c ≠ LF ∧ c ≠ CR)
    (full_content (page_fields (λ _ href, href) [] [] label_page)) ∧
  ∃ before, full_content (page_fields (λ _ href, href) [] [] label_page)
            = before ++ deadline (page_fields (λ _ href, href) [] [] label_page).
Proof.
  assert (H : Forall (λ c, c ≠ LF ∧ c ≠ CR)
    (full_content (page_fields (λ _ href, href) [] [] label_page))).
  { apply (bool_decide_unpack _). by vm_compute. }
  split; [exact H|].
  pose proof (deadline_runs_to_end_of_content (λ _ href, href) [] [] label_page H) as Hd.
  assert (Hm : re_search deadline_pattern
                 (full_content (page_fields (λ _ href, href) [] [] label_page))
               = label_page_match) by (vm_compute; reflexivity).
  rewrite Hm in Hd. exact Hd.
Defined.

(** ** The Bachelor test *)

Lemma level_contains_bachelor (doc : soup) :
  str_contains_bachelor (level_of doc)
  = re_test bachelor_pattern (lower (full_content_of doc)).
Proof.
  unfold level_of, level_tags.
  destruct (re_test matric_pattern _), (re_test inter_pattern _),
    (re_test bachelor_pattern _), (re_test masters_pattern _),
    (re_test phd_pattern _); by vm_compute.
Qed.

(** X10: the Bachelor filter keeps the record of a page exactly when the
    bachelor test matched the lowered full content of the page: no other
    combination of level terms holds the word. *)
Theorem bachelor_filter_is_bachelor_test
    (urljoin : pystr → pystr → pystr) (now_isoformat page_url : pystr) (doc : soup) :
  str_contains_bachelor (level (page_fields urljoin now_isoformat page_url doc))
  = re_test bachelor_pattern
      (lower (full_content (page_fields urljoin now_isoformat page_url doc))).
Proof. apply level_contains_bachelor. Qed.

Lemma rmatch_lit {A} (w : pystr) pre suf caps (k : @cont A) :
  rmatch (cat_all (Chr ∘ is_char <$> w)) pre suf caps k =
  if startswith w suf
  then k (reverse (take (length w) suf) ++ pre) (drop (length w) suf) caps
  else None.
Proof.
  revert pre suf. induction w as [|c w IH]; intros pre suf; [done|].
  destruct suf as [|x suf]; [done|].
  cbn [cat_all fmap list_fmap foldr rmatch compose startswith length take drop].
  unfold is_char at 1.
  destruct (decide (x = c)) as [->|Hne].
  - rewrite !bool_decide_true by done. cbn [andb].
    change (foldr Cat Eps (Chr ∘ is_char <$> w)) with (cat_all (Chr ∘ is_char <$> w)).
    rewrite IH, reverse_cons, <-(assoc_L (++)). done.
  - rewrite bool_decide_false by done.
    rewrite bool_decide_false by (by intros ->). done.
Qed.

(** A search succeeds exactly when the pattern matches at some position. *)
Lemma search_from_is_Some r s pre suf :
  is_Some (search_from r s pre suf) ↔
  ∃ before rest, suf = before ++ rest ∧
    is_Some (match_here r s (reverse before ++ pre) rest).
Proof.
  split.
  - intros [m Hm]. apply search_from_leftmost in Hm as (before & rest & -> & Hm & _).
    exists before, rest. by rewrite Hm.
  - intros (before & rest & -> & Hm). revert pre Hm.
    induction before as [|c before IH]; intros pre Hm.
    + simpl in Hm. destruct rest; cbn [search_from app];
        by destruct (match_here _ _ _ _).
    + cbn [search_from app]. destruct (match_here r s pre _); [done|].
      apply IH. by rewrite reverse_cons, <-(assoc_L (++)) in Hm.
Qed.

Lemma match_here_bachelor s pre suf :
  is_Some (match_here bachelor_pattern s pre suf) ↔
  (at_word_boundary pre suf = true ∧ startswith (py "bachelor") suf = true) ∨
  startswith (py "undergrad") suf = true.
Proof.
  unfold match_here, bachelor_pattern, lit. cbn [rmatch]. rewrite !rmatch_lit.
  destruct (at_word_boundary pre suf), (startswith (py "bachelor") suf),
    (startswith (py "undergrad") suf); cbn [or_else];
    split; try done; try (intros []%is_Some_None);
    try (by right); try (by left); intros [[? ?]|?]; done.
Qed.

(** X11: the bachelor test matches a lowered text exactly when the text holds
    "undergrad" anywhere, or holds "bachelor" at the start of a word - the
    word may go on, as in "bachelors". *)
Theorem bachelor_test_spec (text_lower : pystr) :
  re_test bachelor_pattern text_lower = true ↔
  (∃ before after, text_lower = before ++ py "bachelor" ++ after ∧
                   from_option isword false (last before) = false) ∨
  (∃ before after, text_lower = before ++ py "undergrad" ++ after).
Proof.
  unfold re_test, re_search. rewrite bool_decide_eq_true, search_from_is_Some.
  split.
  - intros (before & rest & -> & Hm). rewrite app_nil_r in Hm.
    apply match_here_bachelor in Hm as [[Hb Hs]|Hs].
    + left. apply startswith_spec in Hs as [after ->]. exists before, after.
      split; [done|]. unfold at_word_boundary in Hb. rewrite head_reverse in Hb.
      cbn in Hb. by destruct (from_option isword false (last before)).
    + right. apply startswith_spec in Hs as [after ->]. by exists before, after.
  - intros [(before & after & -> & Hw)|(before & after & ->)].
    + exists before, (py "bachelor" ++ after). split; [done|].
      rewrite app_nil_r. apply match_here_bachelor. left. split.
      * unfold at_word_boundary. rewrite head_reverse, Hw. done.
      * apply startswith_spec. by exists after.
    + exists before, (py "undergrad" ++ after). split; [done|].
      rewrite app_nil_r. apply match_here_bachelor. right.
      apply startswith_spec. by exists after.
Qed.

(** ** The area pattern *)

(** A match of the area pattern at a position: the first group is a run of
    characters of its class. *)
Lemma match_area s pre suf m :
  match_here area_pattern s pre suf = Some m →
  ∃ lead text rest,
    suf = lead ++ text ++ rest ∧ Forall (λ c, area_char c = true) text ∧
    m_string m = s ∧
    group_span 1 (m_groups m)
      = Some (length pre + length lead, length pre + length lead + length text).
Proof.
  unfold match_here, area_pattern, cat_all, star, opt, plus, lit_i.
  cbn [foldr]. rewrite rmatch_Cat. intros H.
  change (foldr Cat Eps (Chr ∘ is_char_i <$> py "Area"))
    with (cat_all (Chr ∘ is_char_i <$> py "Area")) in H.
  rewrite rmatch_lit_i in H.
  destruct (startswith (lower (py "Area")) (lower suf)); [|done].
  rewrite rmatch_Cat in H. apply rep_sound in H as (gap & r2 & Hsuf & _ & _ & _ & H).
  rewrite rmatch_Cat in H. apply rep_sound in H as (colon & r3 & -> & _ & _ & _ & H).
  rewrite rmatch_Cat in H. cbn [rmatch] in H.
  apply rep_sound in H as (text & rest & -> & Htext & _ & _ & H).
  assert (Hfin : ∃ pre' caps', m_string m = s ∧
            m_groups m = (2, caps') :: (1, (length (reverse colon ++ reverse gap ++
              reverse (take (length (py "Area")) suf) ++ pre),
              length (reverse text ++ reverse colon ++ reverse gap ++
              reverse (take (length (py "Area")) suf) ++ pre))) :: pre').
  { apply or_else_Some in H as [H|[_ H]].
    - change (foldr Cat Eps (Chr ∘ is_char_i <$> py "Deadline"))
        with (cat_all (Chr ∘ is_char_i <$> py "Deadline")) in H.
      rewrite rmatch_lit_i in H. destruct (startswith _ _); [|done].
      injection H as <-. eauto.
    - destruct rest as [|c [|c' rest]]; [| |done].
      + injection H as <-. eauto.
      + case_bool_decide; [|done]. injection H as <-. eauto. }
  destruct Hfin as (pre' & caps' & Hstr & Hg).
  exists (take (length (py "Area")) suf ++ gap ++ colon), text, rest.
  repeat split; [|done|done|].
  - rewrite <-!(assoc_L (++)), <-Hsuf. by rewrite take_drop.
  - rewrite Hg. cbn [group_span].
    change (bool_decide (2 = 1)) with false. change (bool_decide (1 = 1)) with true.
    cbn iota. f_equal.
    rewrite !length_app, !length_reverse. f_equal; lia.
Qed.

Lemma search_area s m :
  re_search area_pattern s = Some m → Forall (λ c, area_char c = true) (group m 1).
Proof.
  unfold re_search. intros H.
  apply search_from_leftmost in H as (before & rest & Hs & Hhere & _).
  rewrite app_nil_r in Hhere.
  apply match_area in Hhere as (lead & text & rest' & -> & Htext & Hstr & Hsp).
  rewrite length_reverse in Hsp.
  unfold group. rewrite Hsp, Hstr, Hs. cbn [fst snd]. unfold slice.
  replace (length before + length lead + length text - (length before + length lead))
    with (length text) by lia.
  replace (before ++ lead ++ text ++ rest') with ((before ++ lead) ++ text ++ rest')
    by (by rewrite <-!(assoc_L (++))).
  rewrite drop_app_length' by (rewrite !length_app; lia).
  by rewrite take_app_length.
Qed.

(** On the characters of [pystr] the class of the model is the class of the
    pattern. *)
Lemma area_char_code (c : ascii) : area_char c = area_class_ignorecase (code c).
Proof. destruct c as [[] [] [] [] [] [] [] []]; by vm_compute. Qed.

(** X12: on a page of [pystr] text, that is, with no character above code
    point 255, an area taken by the pattern is made of ASCII letters, spaces,
    commas, ampersands and hyphens only; any other character in the area means
    it is the heading-based text. (Above code point 255 the class of the
    pattern takes four more characters, see [area_char]; such text is outside
    this embedding.) *)
Theorem area_characters_latin1
    (urljoin : pystr → pystr → pystr) (now_isoformat page_url : pystr) (doc : soup) :
  Forall (λ c, area_char c = true) (area (page_fields urljoin now_isoformat page_url doc)) ∨
  area (page_fields urljoin now_isoformat page_url doc)
    = guess_field_by_heading doc ["area"; "region"; "province"].
Proof.
  cbn [area page_fields]. unfold area_of.
  destruct (re_search area_pattern (full_content_of doc)) as [m|] eqn:Hm; [|by right].
  destruct (strip (group m 1)) eqn:Hs; [by right|left].
  rewrite <-Hs. apply strip_Forall. exact (search_area _ _ Hm).
Qed.

(** ** The summary *)

Lemma strip_length s : length (strip s) ≤ length s.
Proof.
  unfold strip. destruct (lstrip_split s) as [w [Hs _]].
  destruct (rstrip_split (lstrip s)) as [w' [Hs' _]].
  rewrite Hs at 2. rewrite Hs' at 2. rewrite !length_app. lia.
Qed.

(** One round of the split: the unit, the boundary and what is left. *)
Lemma split_step s pos m :
  search_from sentence_sep s (reverse (take pos s)) (drop pos s) = Some m →
  ∃ before ws rest, drop pos s = before ++ ws ++ rest ∧
    ws ≠ [] ∧ Forall (λ c, isspace c = true) ws ∧ starts_clean rest ∧
    slice s pos (m_start m) = before ∧ drop (m_end m) s = rest ∧
    (before ≠ [] → ∃ p, last before = Some p ∧ one_of ".!?" p = true).
Proof.
  intros Hm.
  apply search_sentence_sep in Hm
    as (before & ws & rest & Hs & Hne & Hws & Hrest & (p & Hp & Hpunct) & Hst & Hen).
  assert (Hpos : pos ≤ length s).
  { destruct (decide (pos ≤ length s)); [done|].
    rewrite drop_ge in Hs by lia. by destruct before, ws. }
  rewrite length_reverse, length_take_le in Hst, Hen by done.
  exists before, ws, rest. repeat split; [done..| | |].
  - unfold slice. rewrite Hst, Hs.
    replace (pos + length before - pos) with (length before) by lia.
    apply take_app_length.
  - rewrite Hen.
    replace (pos + length before + length ws) with (pos + (length before + length ws)) by lia.
    by rewrite <-drop_drop, Hs, (assoc_L (++)), <-length_app, drop_app_length.
  - intros Hb. exists p. split; [|done]. rewrite <-head_reverse.
    destruct (reverse before) eqn:Hr; [|by simplify_eq/=].
    apply (f_equal reverse) in Hr. by rewrite reverse_involutive in Hr.
Qed.

Lemma join_cons_length sep p rest :
  length (join sep (p :: rest)) ≤ length p + (length sep + length (join sep rest)).
Proof. destruct rest; simpl; [lia|]. rewrite !length_app. simpl. lia. Qed.

Lemma split_join_length fuel s pos n :
  length (join (py " ") (take n (split_from fuel sentence_sep s pos))) ≤ length (drop pos s).
Proof.
  revert pos n. induction fuel as [|fuel IH]; intros pos n.
  { destruct n as [|[|n]]; simpl; lia. }
  cbn [split_from]. destruct (search_from _ _ _ _) as [m|] eqn:Hm.
  2: { destruct n as [|[|n]]; simpl; lia. }
  apply split_step in Hm as (before & ws & rest & Hs & Hne & _ & _ & -> & Hrest & _).
  destruct n as [|n]; [simpl; lia|]. cbn [take].
  etrans; [apply join_cons_length|].
  specialize (IH (m_end m) n). rewrite Hrest in IH.
  rewrite Hs, !length_app. destruct ws; [done|]. simpl in *. lia.
Qed.

(** X13: the summary is never longer than the full content. *)
Theorem summary_not_longer_than_content
    (urljoin : pystr → pystr → pystr) (now_isoformat page_url : pystr) (doc : soup) :
  length (summary (page_fields urljoin now_isoformat page_url doc))
  ≤ length (full_content (page_fields urljoin now_isoformat page_url doc)).
Proof.
  cbn [summary full_content page_fields]. unfold summary_of, re_split.
  etrans; [apply strip_length|].
  etrans; [apply split_join_length|]. by rewrite drop_0.
Qed.

(** In a text with clean ends every unit but the last ends in punctuation. *)
Lemma split_units_punctuated fuel s pos i u :
  solid (drop pos s) →
  split_from fuel sentence_sep s pos !! i = Some u →
  S i < length (split_from fuel sentence_sep s pos) →
  ∃ p, last u = Some p ∧ one_of ".!?" p = true.
Proof.
  revert pos i. induction fuel as [|fuel IH]; intros pos i Hsolid; [simpl; lia|].
  cbn [split_from]. destruct (search_from _ _ _ _) as [m|] eqn:Hm; [|simpl; lia].
  apply split_step in Hm
    as (before & ws & rest & Hs & Hne & Hws & Hrest & Hslice & Hdrop & Hp).
  destruct Hsolid as [Hnil [Hstart Hend]].
  assert (Hw : ∃ w ws', ws = w :: ws' ∧ isspace w = true).
  { destruct ws as [|w ws']; [done|]. apply Forall_cons in Hws as [? _]. eauto. }
  destruct Hw as (w & ws' & -> & Hw).
  assert (Hbefore : before ≠ []).
  { intros ->. rewrite Hs in Hstart. by rewrite (Hstart w eq_refl) in Hw. }
  destruct i as [|i]; cbn [lookup list_lookup length].
  - intros [= <-] _. rewrite Hslice. by apply Hp.
  - intros Hu Hlen. apply (IH (m_end m) i); [|done|lia].
    rewrite Hdrop. split; [|split; [done|]].
    + intros ->. rewrite app_nil_r in Hs.
      destruct (last (w :: ws')) as [l|] eqn:Hlast; [|by apply last_None in Hlast].
      assert (isspace l = true).
      { rewrite Forall_forall in Hws. apply Hws. by apply last_Some_elem_of. }
      assert (isspace l = false).
      { apply Hend. by rewrite Hs, last_app, Hlast. }
      congruence.
    + intros c Hc. apply Hend. by rewrite Hs, !last_app, Hc.
Qed.

(** X14: a summary that leaves part of the content out ends at the end of a
    sentence: when the content has more than three units, the last character of
    the summary is a full stop, an exclamation mark or a question mark. *)
Theorem truncated_summary_ends_sentence
    (urljoin : pystr → pystr → pystr) (now_isoformat page_url : pystr) (doc : soup) :
  3 < length (re_split sentence_sep
                (full_content (page_fields urljoin now_isoformat page_url doc))) →
  ∃ p, last (summary (page_fields urljoin now_isoformat page_url doc)) = Some p ∧
       one_of ".!?" p = true.
Proof.
  cbn [summary full_content page_fields]. unfold summary_of. intros Hlen.
  rewrite strip_id by apply summary_units_clean.
  destruct (full_content_solid doc) as [Hnil|Hsolid].
  { rewrite Hnil in Hlen. vm_compute in Hlen. lia. }
  unfold re_split in *.
  destruct (split_units_punctuated (length (full_content_of doc)) (full_content_of doc) 0 2
              (default [] (split_from (length (full_content_of doc)) sentence_sep
                             (full_content_of doc) 0 !! 2)))
    as (p & Hp & Hpunct); [by rewrite drop_0 | | lia |].
  { destruct (split_from _ _ _ _) as [|u1 [|u2 [|u3 rest]]]; simpl in *; try lia. done. }
  exists p. split; [|done].
  destruct (split_from _ _ _ _) as [|u1 [|u2 [|u3 rest]]]; simpl in *; try lia.
  by rewrite last_app_cons, last_cons, last_app_cons, last_cons, Hp.
Qed.

Lemma truncated_summary_ends_sentence_witness :
  3 < length (re_split sentence_sep
                (full_content (page_fields (λ _ href, href) [] [] label_page))) ∧
  ∃ p, last (summary (page_fields (λ _ href, href) [] [] label_page)) = Some p ∧
       one_of ".!?" p = true.
Proof.
  assert (H : 3 < length (re_split sentence_sep
                (full_content (page_fields (λ _ href, href) [] [] label_page)))).
  { apply (bool_decide_unpack _). by vm_compute. }
  split; [exact H|].
  exact (truncated_summary_ends_sentence (λ _ href, href) [] [] label_page H).
Defined.

(** ** Cleaning the deadline, further *)

(** A match of the numeric pattern at a position. *)
Lemma match_date s pre suf m :
  match_here date_pattern s pre suf = Some m →
  ∃ text rest, suf = text ++ rest ∧ numeric_date_text text ∧
    m_string m = s ∧ m_start m = length pre ∧ m_end m = length pre + length text.
Proof.
  unfold match_here, date_pattern, cat_all, between. cbn [foldr rmatch]. intros H.
  apply or_else_Some in H as [H|[_ H]].
  all: apply rep_sound in H as (f1 & r1 & -> & Hf1 & Hlo1 & Hhi1 & H).
  all: destruct r1 as [|s1 r2]; [done|]; destruct (one_of "-/" s1) eqn:Hs1; [|done].
  all: apply rep_sound in H as (f2 & r3 & -> & Hf2 & Hlo2 & Hhi2 & H).
  all: destruct r3 as [|s2 r4]; [done|]; destruct (one_of "-/" s2) eqn:Hs2; [|done].
  all: apply rep_sound in H as (f3 & rest & -> & Hf3 & Hlo3 & Hhi3 & H).
  all: injection H as <-; cbn [m_string m_start m_end].
  all: specialize (Hhi1 _ eq_refl); specialize (Hhi2 _ eq_refl); specialize (Hhi3 _ eq_refl).
  all: exists (f1 ++ [s1] ++ f2 ++ [s2] ++ f3), rest.
  all: repeat split; [by rewrite <-!(assoc_L (++)) | |
         rewrite !length_app, !length_reverse; simpl;
         rewrite !length_app, ?length_reverse; simpl;
         rewrite ?length_app, ?length_reverse; simpl; lia].
  all: exists f1, s1, f2, s2, f3; repeat split; [by rewrite !Forall_app|done|done|lia].
Qed.

Lemma search_date s m :
  re_search date_pattern s = Some m →
  numeric_date_text (group m 0) ∧ ∃ before after, s = before ++ group m 0 ++ after.
Proof.
  unfold re_search. intros H.
  apply search_from_leftmost in H as (before & rest & Hs & Hhere & _).
  rewrite app_nil_r in Hhere.
  apply match_date in Hhere as (text & rest' & -> & Hshape & Hstr & Hst & Hen).
  rewrite length_reverse in Hst, Hen.
  assert (group m 0 = text) as ->.
  { unfold group, slice. rewrite Hstr, Hst, Hen, Hs.
    replace (length before + length text - length before) with (length text) by lia.
    by rewrite drop_app_length, take_app_length. }
  split; [done|]. by exists before, rest'.
Qed.

Section DateNormalizerFacts.
Variable to_datetime : pystr → outcome Timestamp.
Variable parser_parse : pystr → outcome Date.

(** X15: [extract_date] returns [NaT] only when the numeric pattern is found
    in the text and [to_datetime] returns [NaT] for what it matched; in
    every other case the result is a date or [None]. *)
Theorem extract_date_NaT_origin (text : pyobj) :
  (extract_date to_datetime parser_parse text).1 = CNaT →
  ∃ s m, text = Str s ∧ re_search date_pattern s = Some m ∧
         to_datetime (group m 0) = Returned NaT.
Proof.
  destruct text as [s|]; [|done]. unfold extract_date, month_name_formats.
  case_bool_decide; [done|]. destruct (existsb _ _); [done|].
  destruct (re_search date_pattern s) as [m|] eqn:Hm.
  - destruct (to_datetime (group m 0)) as [[|d]|] eqn:Ht; [by eauto|done|].
    by destruct (parser_parse s).
  - by destruct (parser_parse s).
Qed.

(** X16: the only texts handed to [to_datetime] are parts of the input that
    have the shape of a numeric date. *)
Theorem to_datetime_argument_shape (text : pyobj) (arg : pystr) :
  ToDatetime arg ∈ (extract_date to_datetime parser_parse text).2 →
  numeric_date_text arg ∧
  ∃ s before after, text = Str s ∧ s = before ++ arg ++ after.
Proof.
  destruct text as [s|]; [|by intros ?%elem_of_nil].
  unfold extract_date, month_name_formats.
  case_bool_decide; [by intros ?%elem_of_nil|].
  destruct (existsb _ _); [by intros ?%elem_of_nil|].
  destruct (re_search date_pattern s) as [m|] eqn:Hm.
  - apply search_date in Hm as [Hshape (before & after & Hs)].
    assert (Hin : ToDatetime arg ∈ [NumericSearch s; ToDatetime (group m 0); ParserParse s]
                  → arg = group m 0).
    { rewrite !elem_of_cons, elem_of_nil. intros [?|[[= ->]|[?|[]]]]; done. }
    intros Harg. assert (arg = group m 0) as ->.
    { apply Hin. destruct (to_datetime (group m 0)) as [t|]; cbn [snd] in Harg.
      - rewrite !elem_of_cons, elem_of_nil in *. tauto.
      - by destruct (parser_parse s). }
    split; [done|]. by exists s, before, after.
  - destruct (parser_parse s); cbn [snd app];
      rewrite !elem_of_cons, elem_of_nil; intros [?|[?|[]]]; done.
Qed.
End DateNormalizerFacts.

Lemma extract_date_NaT_origin_witness :
  (extract_date (pd_to_datetime 2025) (λ _, Raised) (Str (py "99-99-2024"))).1 = CNaT ∧
  ∃ s m, Str (py "99-99-2024") = Str s ∧ re_search date_pattern s = Some m ∧
         pd_to_datetime 2025 (group m 0) = Returned NaT.
Proof.
  assert (H : (extract_date (pd_to_datetime 2025) (λ _, Raised)
                 (Str (py "99-99-2024"))).1 = CNaT) by (vm_compute; reflexivity).
  split; [exact H|].
  exact (extract_date_NaT_origin (pd_to_datetime 2025) (λ _, Raised) _ H).
Defined.

Lemma to_datetime_argument_shape_witness :
  ToDatetime (py "1-2-2024")
    ∈ (extract_date (pd_to_datetime 2025) (λ _, Raised) (Str (py "by 1-2-2024"))).2 ∧
  numeric_date_text (py "1-2-2024").
Proof.
  assert (H : ToDatetime (py "1-2-2024")
    ∈ (extract_date (pd_to_datetime 2025) (λ _, Raised) (Str (py "by 1-2-2024"))).2).
  { assert ((extract_date (pd_to_datetime 2025) (λ _, Raised) (Str (py "by 1-2-2024"))).2
            = [NumericSearch (py "by 1-2-2024"); ToDatetime (py "1-2-2024")]) as ->
      by (vm_compute; reflexivity).
    rewrite !elem_of_cons. by right; left. }
  split; [exact H|].
  exact (proj1 (to_datetime_argument_shape (pd_to_datetime 2025) (λ _, Raised) _ _ H)).
Defined.

(** ** The pipeline *)

Lemma omap_nil_None {X Y} (f : X → option Y) (l : list X) :
  omap f l = [] → Forall (λ x, f x = None) l.
Proof.
  induction l as [|x l IH]; [done|]. cbn [omap list_omap].
  destruct (f x) eqn:Hf; [done|]. intros H. constructor; [done | by apply IH].
Qed.

Section PipelineFacts.
Variable fetch : pystr → option pystr.
Variable BeautifulSoup : pystr → soup.
Variable urljoin : pystr → pystr → pystr.
Variable now_isoformat : pystr.
Variable to_datetime : pystr → outcome Timestamp.
Variable parser_parse : pystr → outcome Date.

(** X17: nothing is written exactly when no link gave a page (the fetch
    failed or gave an empty page for every link); otherwise every Bachelor row
    is the record of a link whose page was fetched, and the bachelor test
    matched the content of that page. *)
Theorem main_rows_from_fetched_pages (links : list pystr) :
  match main fetch BeautifulSoup urljoin now_isoformat to_datetime parser_parse links with
  | Some rows =>
      (∃ link html, link ∈ links ∧ fetch link = Some html ∧ html ≠ []) ∧
      Forall (λ row, ∃ link html,
                link ∈ links ∧ fetch link = Some html ∧ html ≠ [] ∧
                row_record row = page_fields urljoin now_isoformat link (BeautifulSoup html) ∧
                re_test bachelor_pattern (lower (full_content (row_record row))) = true)
             rows
  | None => Forall (λ link, fetch link = None ∨ fetch link = Some []) links
  end.
Proof.
  unfold main.
  assert (Hfetched : ∀ r, r ∈ omap (extract_fields fetch BeautifulSoup urljoin now_isoformat) links →
            ∃ link html, link ∈ links ∧ fetch link = Some html ∧ html ≠ [] ∧
              r = page_fields urljoin now_isoformat link (BeautifulSoup html)).
  { intros r (link & Hlink & Hr)%list_elem_of_omap. unfold extract_fields in Hr.
    destruct (fetch link) as [[|c html]|] eqn:Hf; [done| |done].
    injection Hr as <-. by exists link, (c :: html). }
  destruct (omap _ links) as [|r results] eqn:Hres; cbn [main_bachelors].
  - apply omap_nil_None in Hres. eapply Forall_impl; [exact Hres|].
    intros link Hnone. unfold extract_fields in Hnone.
    destruct (fetch link) as [[|c html]|]; [by right|done|by left].
  - split.
    { destruct (Hfetched r) as (link & html & ? & ? & ? & _); [by left|]. eauto. }
    apply Forall_forall. intros row Hrow.
    unfold bachelors_df, data_frame in Hrow.
    apply list_elem_of_filter in Hrow as [Hb Hrow].
    apply list_elem_of_fmap in Hrow as (r' & -> & Hr').
    cbn [row_record] in *.
    destruct (Hfetched r' Hr') as (link & html & Hlink & Hf & Hne & ->).
    exists link, html. repeat split; [done..|].
    cbn [level full_content page_fields] in *. by rewrite <-level_contains_bachelor.
Qed.
End PipelineFacts.

(** ** Link discovery *)

Lemma before_hash_without_hash s : "#"%char ∉ before_hash s.
Proof.
  induction s as [|c s IH]; simpl; [by intros ?%elem_of_nil|].
  case_bool_decide; [by intros ?%elem_of_nil|].
  rewrite elem_of_cons. by intros [?|?].
Qed.

Section LinkDiscoveryFacts.
Variable fetch : pystr → option pystr.
Variable BeautifulSoup : pystr → soup.
Variable urljoin : pystr → pystr → pystr.

Lemma found_links_listed doc link :
  link ∈ found_links urljoin doc ↔ listed_link urljoin doc link.
Proof.
  unfold found_links, listed_link, listing_anchors, detail_href.
  rewrite elem_of_list_to_set, list_elem_of_fmap. split.
  - intros (href & -> & Hin). apply list_elem_of_filter in Hin as [Hok Hin].
    apply list_elem_of_omap in Hin as (a & Ha & Hhref).
    apply list_elem_of_filter in Ha as [[Hname _] Ha].
    apply andb_true_iff in Hok as [[_ Hc]%andb_true_iff He%negb_true_iff].
    by exists a, href.
  - intros (a & href & Ha & Hname & Hhref & Hc & He & ->). exists href. split; [done|].
    apply list_elem_of_filter. split.
    + rewrite Hc, He. rewrite bool_decide_false; [done|]. by intros ->.
    + apply list_elem_of_omap. exists a. split; [|done].
      apply list_elem_of_filter. split; [|done]. by rewrite Hhref.
Qed.

(** What the loop has done when it stops: it fetched the pages [page],
    [page + 1], ... one after the other, every one but the last with success,
    it kept the links it had and only added links found on those pages, and
    every page but the last gave a link that was new - neither among the links
    at the start nor found on a page before. *)
Lemma discover_loop_spec rounds page links log links' log' :
  discover_loop fetch BeautifulSoup urljoin rounds page links log = (links', log') →
  ∃ k, k ≤ rounds ∧ log' = log ++ (listing_url urljoin <$> seq page k) ∧
    (∀ i, page ≤ i → S i < page + k →
          ∃ html, fetch (listing_url urljoin i) = Some html ∧ html ≠ []) ∧
    (∀ l, l ∈ links' →
          l ∈ links ∨
          ∃ i html, page ≤ i < page + k ∧ fetch (listing_url urljoin i) = Some html ∧
                    l ∈ found_links urljoin (BeautifulSoup html)) ∧
    size links + k ≤ S (size links') ∧
    (∀ l, l ∈ links → l ∈ links') ∧
    (∀ i, page ≤ i → S i < page + k →
          ∃ html l, fetch (listing_url urljoin i) = Some html ∧
                    l ∈ found_links urljoin (BeautifulSoup html) ∧
                    l ∈ links' ∧ (l ∉ links) ∧
                    ∀ j html', page ≤ j → j < i →
                               fetch (listing_url urljoin j) = Some html' →
                               l ∉ found_links urljoin (BeautifulSoup html')).
Proof.
  revert page links log. induction rounds as [|rounds IH]; intros page links log H.
  { injection H as <- <-. exists 0. rewrite app_nil_r.
    split; [lia|]. split; [done|]. split; [intros; lia|]. split; [by left|].
    split; [lia|]. split; [done | intros; lia]. }
  cbn [discover_loop] in H.
  match goal with
  | |- ?G => assert (Hstop : (links, log ++ [listing_url urljoin page]) = (links', log') → G)
  end.
  { intros [= <- <-]. exists 1.
    split; [lia|]. split; [done|]. split; [intros; lia|]. split; [by left|].
    split; [lia|]. split; [done | intros; lia]. }
  destruct (fetch (listing_url urljoin page)) as [[|c html]|] eqn:Hf;
    [by apply Hstop| |by apply Hstop].
  destruct (decide (found_links urljoin (BeautifulSoup (c :: html)) ∖ links = ∅)) as [|Hnew];
    [by apply Hstop|].
  apply IH in H as (k & Hk & -> & Hok & Hin & Hsize & Hkeep & Hfresh).
  exists (S k). split; [|split; [|split; [|split; [|split; [|split]]]]].
  - lia.
  - by rewrite <-(assoc_L (++)).
  - intros i Hi1 Hi2. destruct (decide (i = page)) as [->|]; [by eauto|].
    apply Hok; lia.
  - intros l Hl. destruct (Hin l Hl) as [Hl'|(i & html' & Hi & Hf' & Hl')].
    + apply elem_of_union in Hl' as [?|Hl']; [by left|right].
      apply elem_of_difference in Hl' as [Hl' _].
      exists page, (c :: html). repeat split; [lia|lia|done|done].
    + right. exists i, html'. repeat split; [lia|lia|done|done].
  - rewrite size_union in Hsize
      by (apply elem_of_disjoint; intros x Hx [_ Hn]%elem_of_difference; done).
    assert (size (found_links urljoin (BeautifulSoup (c :: html)) ∖ links) ≠ 0).
    { intros Hz. apply size_empty_iff in Hz. apply Hnew. by apply leibniz_equiv. }
    lia.
  - intros l Hl. apply Hkeep, elem_of_union. by left.
  - intros i Hi1 Hi2. destruct (decide (i = page)) as [->|Hne].
    + apply set_choose_L in Hnew as [l [Hl Hnl]%elem_of_difference].
      exists (c :: html), l. split; [done|]. split; [done|]. split.
      { apply Hkeep, elem_of_union. right. by apply elem_of_difference. }
      split; [done|]. intros j html' Hj1 Hj2. lia.
    + destruct (Hfresh i) as (html' & l & Hf' & Hl & Hl' & Hnl & Hbefore); [lia|lia|].
      exists html', l. split; [done|]. split; [done|]. split; [done|].
      rewrite not_elem_of_union, elem_of_difference in Hnl. destruct Hnl as [Hnl Hnn].
      split; [done|]. intros j html'' Hj1 Hj2 Hfj.
      destruct (decide (j = page)) as [->|].
      * rewrite Hf in Hfj. injection Hfj as <-. tauto.
      * apply (Hbefore j); [lia | done | done].
Qed.

(** X18: the links come back in increasing order, each once, and none of
    them has a fragment: no link holds a [#]. *)
Theorem discovered_links_sorted_without_fragment (max_pages : nat) :
  Sorted pystr_le (discover_links_from_listing fetch BeautifulSoup urljoin max_pages).1 ∧
  NoDup (discover_links_from_listing fetch BeautifulSoup urljoin max_pages).1 ∧
  Forall (λ link, "#"%char ∉ link)
         (discover_links_from_listing fetch BeautifulSoup urljoin max_pages).1.
Proof.
  unfold discover_links_from_listing.
  destruct (discover_loop _ _ _ _ _ _ _) as [links log] eqn:Hloop. cbn [fst].
  split; [apply Sorted_merge_sort, _|]. split.
  - rewrite merge_sort_Permutation. apply NoDup_elements.
  - apply Forall_forall. intros link.
    rewrite merge_sort_Permutation, elem_of_elements. intros Hlink.
    apply discover_loop_spec in Hloop as (k & _ & _ & _ & Hin & _).
    destruct (Hin link Hlink) as [?|(i & html & _ & _ & Hfound)]; [set_solver|].
    apply found_links_listed in Hfound as (a & href & _ & _ & _ & _ & _ & ->).
    apply before_hash_without_hash.
Qed.

(** X19: every link returned was found on a listing page that was fetched,
    one of the pages 1 to [max_pages]: it is the address of an anchor of that
    page whose [href] holds the listing path without ending with it. *)
Theorem discovered_links_come_from_listings (max_pages : nat) :
  Forall (λ link, ∃ i html,
            1 ≤ i ≤ max_pages ∧
            listing_url urljoin i
              ∈ (discover_links_from_listing fetch BeautifulSoup urljoin max_pages).2 ∧
            fetch (listing_url urljoin i) = Some html ∧
            listed_link urljoin (BeautifulSoup html) link)
         (discover_links_from_listing fetch BeautifulSoup urljoin max_pages).1.
Proof.
  unfold discover_links_from_listing.
  destruct (discover_loop _ _ _ _ _ _ _) as [links log] eqn:Hloop. cbn [fst snd].
  apply Forall_forall. intros link.
  rewrite merge_sort_Permutation, elem_of_elements. intros Hlink.
  apply discover_loop_spec in Hloop as (k & Hk & -> & _ & Hin & _).
  destruct (Hin link Hlink) as [?|(i & html & Hi & Hf & Hfound)]; [set_solver|].
  exists i, html. repeat split; [lia | lia | | done | by apply found_links_listed].
  cbn [app]. apply list_elem_of_fmap. exists i. split; [done|].
  apply elem_of_seq. lia.
Qed.

(** X20: the listing pages are requested in order from page 1, never more
    than [max_pages] of them, and a page is requested only after every page
    before it was fetched with success. *)
Theorem listing_pages_requested_in_order (max_pages : nat) :
  ∃ k, k ≤ max_pages ∧
    (discover_links_from_listing fetch BeautifulSoup urljoin max_pages).2
      = listing_url urljoin <$> seq 1 k ∧
    ∀ i, 1 ≤ i → i < k → ∃ html, fetch (listing_url urljoin i) = Some html ∧ html ≠ [].
Proof.
  unfold discover_links_from_listing.
  destruct (discover_loop _ _ _ _ _ _ _) as [links log] eqn:Hloop. cbn [snd].
  apply discover_loop_spec in Hloop as (k & Hk & -> & Hok & _ & _).
  exists k. repeat split; [done|]. intros i Hi1 Hi2. apply Hok; lia.
Qed.

(** X21: every listing page requested, but the last, gave a link that was
    new - a returned link that none of the pages before it gave - so the number
    of requests is at most the number of links plus one. *)
Theorem requested_pages_gave_new_links (max_pages : nat) :
  ∃ k,
    (discover_links_from_listing fetch BeautifulSoup urljoin max_pages).2
      = listing_url urljoin <$> seq 1 k ∧
    (∀ i, 1 ≤ i → i < k →
       ∃ html link,
         fetch (listing_url urljoin i) = Some html ∧
         listed_link urljoin (BeautifulSoup html) link ∧
         link ∈ (discover_links_from_listing fetch BeautifulSoup urljoin max_pages).1 ∧
         ∀ j html', 1 ≤ j → j < i → fetch (listing_url urljoin j) = Some html' →
                    ¬ listed_link urljoin (BeautifulSoup html') link) ∧
    length (discover_links_from_listing fetch BeautifulSoup urljoin max_pages).2
    ≤ S (length (discover_links_from_listing fetch BeautifulSoup urljoin max_pages).1).
Proof.
  unfold discover_links_from_listing.
  destruct (discover_loop _ _ _ _ _ _ _) as [links log] eqn:Hloop. cbn [fst snd].
  apply discover_loop_spec in Hloop as (k & _ & -> & _ & _ & Hsize & _ & Hfresh).
  exists k. cbn [app]. split; [done|]. split.
  - intros i Hi1 Hi2.
    destruct (Hfresh i) as (html & link & Hf & Hl & Hl' & _ & Hbefore); [lia|lia|].
    exists html, link. split; [done|]. split; [by apply found_links_listed|]. split.
    { by rewrite merge_sort_Permutation, elem_of_elements. }
    intros j html' Hj1 Hj2 Hfj Hlisted. apply (Hbefore j html'); [lia|done|done|].
    by apply found_links_listed.
  - rewrite merge_sort_Permutation, length_fmap, length_seq.
    rewrite size_empty in Hsize. unfold size, set_size in Hsize. simpl in *. lia.
Qed.
End LinkDiscoveryFacts.
